(** * OpenShift Route generation from a Knative Ingress

    A shallow embedding of
    [serving/ingress/pkg/reconciler/ingress/resources/route.go]:
    [MakeRoutes], [makeRoute], [routeName] and [hashHost], together with
    the parts of the Go runtime they rely on ([strings.Split], the [%x],
    [%s] and [%v] verbs of [fmt.Sprintf], [crypto/sha256] and
    [time.Duration.Seconds]). *)

From Stdlib Require Import ZArith String Ascii List Lia SpecFloat.
From stdpp Require Import gmap strings list fin_maps.

Local Open Scope Z_scope.

(** ** Go strings

    A Go string is a sequence of bytes; [string] (a list of [ascii]) is
    used for it throughout. *)

Module GoString.

Definition bytes (s : string) : list Z :=
  map (fun c => Z.of_N (N_of_ascii c)) (list_ascii_of_string s).

(** [s[lo:hi]] for [0 <= lo <= hi <= len(s)]; the callers below only
    slice inside the string (see [hashHost_slice_in_range]). *)
Definition slice (s : string) (lo hi : nat) : string :=
  String.substring lo (hi - lo) s.

(** [strings.Split(s, sep)] for a one-byte separator: the substrings
    between the separators, [n + 1] of them when [sep] occurs [n]
    times; the empty string yields one empty substring. *)
Fixpoint Split1 (s : string) (sep : ascii) : list string :=
  match s with
  | EmptyString => [EmptyString]
  | String c rest =>
      if Ascii.eqb c sep then EmptyString :: Split1 rest sep
      else match Split1 rest sep with
           | [] => [String c EmptyString]
           | p :: ps => String c p :: ps
           end
  end.

Definition dot : ascii := "."%char.

End GoString.

(** ** The [%x] verb on byte sequences *)

Module Hex.

Definition digit (n : Z) : ascii :=
  match n with
  | 0 => "0" | 1 => "1" | 2 => "2" | 3 => "3"
  | 4 => "4" | 5 => "5" | 6 => "6" | 7 => "7"
  | 8 => "8" | 9 => "9" | 10 => "a" | 11 => "b"
  | 12 => "c" | 13 => "d" | 14 => "e" | _ => "f"
  end%char.

(** Lower-case, two characters per byte, most significant nibble
    first. *)
Fixpoint encode (bs : list Z) : string :=
  match bs with
  | [] => EmptyString
  | b :: rest =>
      String (digit (Z.shiftr b 4)) (String (digit (Z.land b 15)) (encode rest))
  end.

(** The characters [0-9a-f]. *)
Definition is_digit (c : ascii) : bool :=
  let n := Z.of_N (N_of_ascii c) in
  ((48 <=? n) && (n <=? 57)) || ((97 <=? n) && (n <=? 102)).

Fixpoint all_digits (s : string) : bool :=
  match s with
  | EmptyString => true
  | String c rest => is_digit c && all_digits rest
  end.

(** The characters [0-9]. *)
Definition is_decimal (c : ascii) : bool :=
  let n := Z.of_N (N_of_ascii c) in (48 <=? n) && (n <=? 57).

Fixpoint all_decimal (s : string) : bool :=
  match s with
  | EmptyString => true
  | String c rest => is_decimal c && all_decimal rest
  end.

(** Reading [%x] output back: the value of a digit, and the bytes of a
    string of digit pairs. *)
Definition value (c : ascii) : Z :=
  let n := Z.of_N (N_of_ascii c) in
  if (48 <=? n) && (n <=? 57) then n - 48 else n - 87.

Fixpoint decode (s : string) : list Z :=
  match s with
  | String hi (String lo rest) => (16 * value hi + value lo) :: decode rest
  | _ => []
  end.

End Hex.

(** ** SHA-256 (FIPS 180-4), as computed by [sha256.Sum256] *)

Module SHA256.

Definition wrap (x : Z) : Z := x mod 2 ^ 32.
Definition add (x y : Z) : Z := wrap (x + y).
Definition rotr (n x : Z) : Z :=
  Z.lor (Z.shiftr x n) (wrap (Z.shiftl x (32 - n))).
Definition shr (n x : Z) : Z := Z.shiftr x n.
Definition not32 (x : Z) : Z := Z.lxor x (2 ^ 32 - 1).

Definition Ch (x y z : Z) : Z :=
  Z.lxor (Z.land x y) (Z.land (not32 x) z).
Definition Maj (x y z : Z) : Z :=
  Z.lxor (Z.lxor (Z.land x y) (Z.land x z)) (Z.land y z).
Definition bsig0 (x : Z) : Z :=
  Z.lxor (Z.lxor (rotr 2 x) (rotr 13 x)) (rotr 22 x).
Definition bsig1 (x : Z) : Z :=
  Z.lxor (Z.lxor (rotr 6 x) (rotr 11 x)) (rotr 25 x).
Definition ssig0 (x : Z) : Z :=
  Z.lxor (Z.lxor (rotr 7 x) (rotr 18 x)) (shr 3 x).
Definition ssig1 (x : Z) : Z :=
  Z.lxor (Z.lxor (rotr 17 x) (rotr 19 x)) (shr 10 x).

(** The round constants are the first 32 bits of the fractional parts
    of the cube roots of the first 64 primes, the initial hash value
    those of the square roots of the first 8 primes. *)
Definition primes : list Z :=
  [ 2; 3; 5; 7; 11; 13; 17; 19; 23; 29; 31; 37; 41; 43; 47; 53;
    59; 61; 67; 71; 73; 79; 83; 89; 97; 101; 103; 107; 109; 113; 127; 131;
    137; 139; 149; 151; 157; 163; 167; 173; 179; 181; 191; 193; 197; 199;
    211; 223; 227; 229; 233; 239; 241; 251; 257; 263; 269; 271; 277; 281;
    283; 293; 307; 311 ].

(** The integer cube root below [2 ^ bits], one bit at a time. *)
Fixpoint cbrt_bits (bits : nat) (n r : Z) : Z :=
  match bits with
  | O => r
  | S b =>
      let r' := r + 2 ^ Z.of_nat b in
      cbrt_bits b n (if r' * r' * r' <=? n then r' else r)
  end.

Definition frac_cbrt (p : Z) : Z := wrap (cbrt_bits 36 (p * 2 ^ 96) 0).
Definition frac_sqrt (p : Z) : Z := wrap (Z.sqrt (p * 2 ^ 64)).

Definition K : list Z := Eval vm_compute in map frac_cbrt primes.

Record state := State {
  ha : Z; hb : Z; hc : Z; hd : Z; he : Z; hf : Z; hg : Z; hh : Z
}.

Definition H0 : state :=
  State (frac_sqrt 2) (frac_sqrt 3) (frac_sqrt 5) (frac_sqrt 7)
        (frac_sqrt 11) (frac_sqrt 13) (frac_sqrt 17) (frac_sqrt 19).

(** Padding: a [1] bit, zeros up to 56 modulo 64 bytes, then the
    message length in bits as a 64-bit big-endian integer. *)
Fixpoint be_bytes (n : nat) (x : Z) : list Z :=
  match n with
  | O => []
  | S k => (Z.shiftr x (8 * Z.of_nat k)) mod 256 :: be_bytes k x
  end.

Definition pad (msg : list Z) : list Z :=
  let l := Z.of_nat (length msg) in
  let zeros := Z.to_nat ((55 - l) mod 64) in
  msg ++ [128] ++ repeat 0 zeros ++ be_bytes 8 (8 * l).

Fixpoint be_words (n : nat) (bs : list Z) : list Z :=
  match n, bs with
  | S k, b0 :: b1 :: b2 :: b3 :: rest =>
      (Z.shiftl b0 24 + Z.shiftl b1 16 + Z.shiftl b2 8 + b3) :: be_words k rest
  | _, _ => []
  end.

(** The message schedule, kept most recent word first while it is
    extended from 16 to 64 words. *)
Fixpoint extend (n : nat) (r : list Z) : list Z :=
  match n with
  | O => r
  | S k =>
      let w := add (add (ssig1 (nth 1 r 0)) (nth 6 r 0))
                   (add (ssig0 (nth 14 r 0)) (nth 15 r 0)) in
      extend k (w :: r)
  end.

Definition schedule (block : list Z) : list Z :=
  rev (extend 48 (rev (be_words 16 block))).

Definition round (s : state) (kw : Z * Z) : state :=
  let t1 := add (add (add (hh s) (bsig1 (he s))) (Ch (he s) (hf s) (hg s)))
                (add (fst kw) (snd kw)) in
  let t2 := add (bsig0 (ha s)) (Maj (ha s) (hb s) (hc s)) in
  State (add t1 t2) (ha s) (hb s) (hc s) (add (hd s) t1) (he s) (hf s) (hg s).

Definition compress (h : state) (block : list Z) : state :=
  let s := fold_left round (combine K (schedule block)) h in
  State (add (ha h) (ha s)) (add (hb h) (hb s)) (add (hc h) (hc s))
        (add (hd h) (hd s)) (add (he h) (he s)) (add (hf h) (hf s))
        (add (hg h) (hg s)) (add (hh h) (hh s)).

Fixpoint blocks (n : nat) (h : state) (bs : list Z) : state :=
  match n with
  | O => h
  | S k => blocks k (compress h (firstn 64 bs)) (skipn 64 bs)
  end.

Definition word_bytes (x : Z) : list Z :=
  [ (Z.shiftr x 24) mod 256; (Z.shiftr x 16) mod 256;
    (Z.shiftr x 8) mod 256; x mod 256 ].

Definition state_bytes (s : state) : list Z :=
  word_bytes (ha s) ++ word_bytes (hb s) ++ word_bytes (hc s) ++
  word_bytes (hd s) ++ word_bytes (he s) ++ word_bytes (hf s) ++
  word_bytes (hg s) ++ word_bytes (hh s).

(** [sha256.Sum256(data)]: the 32-byte digest. *)
Definition Sum256 (data : list Z) : list Z :=
  let p := pad data in
  state_bytes (blocks (length p / 64)%nat H0 p).

End SHA256.

(** ** Numbers under the [%v] verb *)

Module Fmt.

(** Decimal digits of a non-negative integer, most significant first;
    [fuel] bounds the number of digits. *)
Fixpoint digits_aux (fuel : nat) (n : Z) (acc : list Z) : list Z :=
  match fuel with
  | O => acc
  | S k => if n <? 10 then n :: acc else digits_aux k (n / 10) (n mod 10 :: acc)
  end.

Definition digits (n : Z) : list Z :=
  digits_aux (S (Z.to_nat (Z.log2 n))) n [].

Definition digit_char (d : Z) : ascii := ascii_of_N (Z.to_N (48 + d)).

Definition digits_string (ds : list Z) : string :=
  string_of_list_ascii (map digit_char ds).

(** [%v] (that is [%d]) of an integer. *)
Definition int (n : Z) : string :=
  if n <? 0 then "-" +:+ digits_string (digits (- n))
  else digits_string (digits n).

(** A decimal number [0.d1 d2 ... dn * 10 ^ dp], as [strconv] keeps
    it. *)
Record decimal := Decimal { dd : list Z; dp : Z }.

Definition nd (d : decimal) : Z := Z.of_nat (length (dd d)).

Fixpoint strip_zeros_rev (r : list Z) : list Z :=
  match r with
  | 0 :: rest => strip_zeros_rev rest
  | _ => r
  end.

Definition trim (ds : list Z) : list Z := rev (strip_zeros_rev (rev ds)).

Definition mantbits : Z := 52.
Definition minexp : Z := -1074.

(** The position of the leading digit of [x / den], for [0 < x]:
    [10 ^ k <= x / den < 10 ^ (k + 1)]. *)
Fixpoint below_one (fuel : nat) (den x k : Z) : Z :=
  match fuel with
  | O => k
  | S f => if den <=? x then k else below_one f den (10 * x) (k - 1)
  end.

Definition leading (den x : Z) : Z :=
  if den <=? x then Z.of_nat (length (digits (x / den))) - 1
  else below_one (S (Z.to_nat (Z.log2 den))) den x 0.

(** Walk the digit positions from the leading digit of [upper] down;
    [lower / den], [v / den] and [upper / den] are the bounds and the
    value, scaled to have the leading digit of [upper] in the units. At
    position [i] the value is cut to [p] (rounding down) or [p + 1]
    (rounding up) units of [10 ^ (- i)]; the first position where one of
    the two lies within the bounds ends the walk, the nearer one being
    taken when both do and the even one on a tie. *)
Fixpoint walk (fuel : nat) (inclusive : bool) (lower v upper den : Z)
    (i pw : Z) : Z * Z :=
  let p := (v * pw) / den in
  match fuel with
  | O => (p, i)
  | S f =>
      let okdown :=
        if inclusive then lower * pw <=? p * den
        else lower * pw <? p * den in
      let okup :=
        if inclusive then (p + 1) * den <=? upper * pw
        else (p + 1) * den <? upper * pw in
      let r := v * pw - p * den in
      let roundup := (den <? 2 * r) || ((den =? 2 * r) && Z.odd p) in
      if okdown && okup then ((if roundup then p + 1 else p), i)
      else if okdown then (p, i)
      else if okup then (p + 1, i)
      else walk f inclusive lower v upper den (i + 1) (10 * pw)
  end.

(** The shortest decimal that reads back as the float [m * 2 ^ e], for
    [0 < m < 2 ^ 53]. Every decimal strictly between [lower] and [upper]
    (and the bounds themselves when [m] is even) reads back as the
    float: the bounds are half-way to the neighbouring floats. All
    quantities are exact, in units of [1 / den]. *)
Definition shortest (m e : Z) : decimal :=
  let quarter := e - 2 in
  let den2 := 2 ^ Z.max 0 (- quarter) in
  let up2 := 2 ^ Z.max 0 quarter in
  let v := 4 * m * up2 in
  let upper := (4 * m + 2) * up2 in
  let lower :=
    (if (m =? 2 ^ mantbits) && (minexp <? e) then 4 * m - 1 else 4 * m - 2)
    * up2 in
  let top := leading den2 upper in
  let den := den2 * 10 ^ Z.max 0 top in
  let up10 := 10 ^ Z.max 0 (- top) in
  let '(d, i) :=
    walk (S (Z.to_nat (Z.log2 den))) (Z.even m)
         (lower * up10) (v * up10) (upper * up10) den 0 1 in
  let ds := digits d in
  Decimal (trim ds) (Z.of_nat (length ds) + top - i).

Definition digit_at (d : decimal) (j : Z) : Z :=
  if (0 <=? j) && (j <? nd d) then nth (Z.to_nat j) (dd d) 0 else 0.

Fixpoint digits_from (d : decimal) (j : Z) (n : nat) : list Z :=
  match n with
  | O => []
  | S k => digit_at d j :: digits_from d (j + 1) k
  end.

(** [%e]: one digit, the remaining digits after a point, and an
    exponent of at least two digits. *)
Definition fmtE (d : decimal) (prec : Z) : string :=
  let first := digits_string [digit_at d 0] in
  let frac :=
    if 0 <? prec
    then "." +:+ digits_string (digits_from d 1 (Z.to_nat prec))
    else "" in
  let exp := if nd d =? 0 then 0 else dp d - 1 in
  let sign := if exp <? 0 then "-" else "+" in
  let a := Z.abs exp in
  let expdigits := if a <? 10 then "0" +:+ int a else int a in
  first +:+ frac +:+ "e" +:+ sign +:+ expdigits.

(** [%f]: the integer part, then [prec] digits after a point. *)
Definition fmtF (d : decimal) (prec : Z) : string :=
  let ipart :=
    if 0 <? dp d then digits_string (digits_from d 0 (Z.to_nat (dp d)))
    else "0" in
  let frac :=
    if 0 <? prec
    then "." +:+ digits_string (digits_from d (dp d) (Z.to_nat prec))
    else "" in
  ipart +:+ frac.

(** [%g] with the shortest precision: [%e] when the exponent is below
    [-4] or at least [6] (the precision [strconv] uses for this
    decision when the shortest one was asked for), [%f] otherwise. *)
Definition fmtG (d : decimal) : string :=
  let eprec := 6 in
  let exp := dp d - 1 in
  if (exp <? -4) || (eprec <=? exp) then fmtE d (nd d - 1)
  else
    let prec := nd d in
    fmtF d (Z.max (prec - dp d) 0).

(** [%v] of a [float64]: [strconv.FormatFloat(x, 'g', -1, 64)]. *)
Definition float64 (x : spec_float) : string :=
  match x with
  | S754_zero s => if s then "-0" else "0"
  | S754_infinity s => if s then "-Inf" else "+Inf"
  | S754_nan => "NaN"
  | S754_finite s m e =>
      (if s then "-" else "") +:+ fmtG (shortest (Zpos m) e)
  end.

End Fmt.

(** ** [time.Duration] *)

Module Duration.

Definition prec : Z := 53.
Definition emax : Z := 1024.

(** [float64(n)] for an integer [n], rounded to nearest even. *)
Definition float64_of_int (n : Z) : spec_float :=
  binary_normalize prec emax n 0 false.

Definition Second : Z := 1000000000.

(** [Duration.Seconds]: a duration is a count of nanoseconds; Go's [/]
    truncates towards zero and [%] takes the sign of the dividend.
<<
    sec := d / Second
    nsec := d % Second
    return float64(sec) + float64(nsec)/1e9
>> *)
Definition Seconds (d : Z) : spec_float :=
  let sec := Z.quot d Second in
  let nsec := Z.rem d Second in
  SFadd prec emax (float64_of_int sec)
    (SFdiv prec emax (float64_of_int nsec) (float64_of_int 1000000000)).

End Duration.

(** ** Naming of routes *)

(** [fmt.Sprintf("%x", sha256.Sum256([]byte(host)))[0:6]] *)
Definition hashHost (host : string) : string :=
  GoString.slice (Hex.encode (SHA256.Sum256 (GoString.bytes host))) 0 6.

(** [fmt.Sprintf("route-%s-%x", uid, hashHost(host))]: [hashHost] returns
    a string, and [%x] applied to a string writes every byte of it as two
    hexadecimal characters. *)
Definition routeName (uid host : string) : string :=
  "route-" +:+ uid +:+ "-" +:+ Hex.encode (GoString.bytes (hashHost host)).

(** ** Maps held by reference

    A Go map is a reference: [ci.GetAnnotations()] hands out the
    ingress's own map, not a copy. The annotation maps therefore live in
    a heap and objects hold locations; a [nil] map is the absence of a
    location. Computations thread the heap and may stop in a run-time
    panic. *)

Abbreviation heap := (gmap nat (gmap string string)).

Definition M (A : Type) : Type := heap -> option (A * heap).

Definition ret {A} (a : A) : M A := fun h => Some (a, h).

Definition bind {A B} (m : M A) (k : A -> M B) : M B :=
  fun h => match m h with
           | Some (a, h') => k a h'
           | None => None
           end.

(** A run-time panic (index out of range, assignment to an entry of a
    nil map). *)
Definition panic {A} : M A := fun _ => None.

Notation "x <- m ;; k" := (bind m (fun x => k))
  (at level 20, m at level 99, k at level 200, only parsing).

(** The contents of the map at a location. *)
Definition contents (h : heap) (l : nat) : gmap string string :=
  default ∅ (h !! l).

(** [make(map[string]string)] *)
Definition makemap : M nat :=
  fun h => let l := fresh (dom h) in Some (l, <[l := ∅]> h).

(** [v, ok := m[k]]; reading a nil map finds nothing. *)
Definition mapaccess (m : option nat) (k : string) : M (option string) :=
  fun h => Some (match m with
                 | Some l => contents h l !! k
                 | None => None
                 end, h).

(** [m[k] = v]; writing to a nil map panics. *)
Definition mapassign (m : option nat) (k v : string) : M unit :=
  match m with
  | Some l => fun h => Some (tt, <[l := <[k := v]> (contents h l)]> h)
  | None => panic
  end.

(** [xs[i]]; panics out of range. *)
Definition index (xs : list string) (i : nat) : M string :=
  match xs !! i with
  | Some x => ret x
  | None => panic
  end.

(** ** The Kubernetes objects, with the fields the code reads or writes *)

Module metav1.
Record ObjectMeta := {
  Name : string;
  Namespace : string;
  UID : string;
  Labels : gmap string string;
  Annotations : option nat
}.
End metav1.

Module networkingv1alpha1.
Record HTTPIngressPath := {
  (** [*metav1.Duration]: nanoseconds, or nil. *)
  DeprecatedTimeout : option Z
}.
Record HTTPIngressRuleValue := { Paths : list HTTPIngressPath }.
Record IngressRule := {
  Hosts : list string;
  (** [type IngressVisibility string] *)
  Visibility : string;
  HTTP : option HTTPIngressRuleValue
}.
Record IngressSpec := { Rules : list IngressRule }.
Record LoadBalancerIngressStatus := { DomainInternal : string }.
(** The field [Ingress] of the source, renamed as the record of the
    ingress itself has that name. *)
Record LoadBalancerStatus := { Ingress_ : list LoadBalancerIngressStatus }.
Record IngressStatus := { PublicLoadBalancer : option LoadBalancerStatus }.
Record Ingress := {
  Meta : metav1.ObjectMeta;
  Spec : IngressSpec;
  Status : IngressStatus
}.
Definition GetAnnotations (ci : Ingress) : option nat :=
  metav1.Annotations (Meta ci).
Definition GetName (ci : Ingress) : string := metav1.Name (Meta ci).
Definition GetUID (ci : Ingress) : string := metav1.UID (Meta ci).
End networkingv1alpha1.

Module intstr.
Inductive IntOrString := Int (n : Z) | String (s : string).
Definition FromString (s : string) : IntOrString := String s.
End intstr.

Module routev1.
Inductive TLSTerminationType :=
  TLSTerminationEdge | TLSTerminationPassthrough | TLSTerminationReencrypt.
Inductive InsecureEdgeTerminationPolicyType :=
  | InsecureEdgeTerminationPolicyNone
  | InsecureEdgeTerminationPolicyAllow
  | InsecureEdgeTerminationPolicyRedirect.
Inductive WildcardPolicyType := WildcardPolicyNone | WildcardPolicySubdomain.
Record RoutePort := { TargetPort : intstr.IntOrString }.
Record RouteTargetReference := {
  Kind : string;
  Name : string;
  (** [*int32] *)
  Weight : option Z
}.
Record TLSConfig := {
  Termination : TLSTerminationType;
  InsecureEdgeTerminationPolicy : InsecureEdgeTerminationPolicyType
}.
Record RouteSpec := {
  Host : string;
  Port : option RoutePort;
  To : RouteTargetReference;
  TLS : option TLSConfig;
  WildcardPolicy : WildcardPolicyType
}.
Record Route := { Meta : metav1.ObjectMeta; Spec : RouteSpec }.
End routev1.

(** [kmeta.UnionMaps]: a fresh map into which the given maps are copied
    in order, a later map overwriting the keys of the earlier ones. *)
Definition UnionMaps (maps : list (gmap string string)) : gmap string string :=
  foldl (fun out m => m ∪ out) ∅ maps.

(** [errors.New] *)
Inductive error := errors_New (msg : string).

(** ** route.go *)

Definition TimeoutAnnotation : string := "haproxy.router.openshift.io/timeout".
Definition DisableRouteAnnotation : string :=
  "serving.knative.openshift.io/disableRoute".
Definition KourierHTTPPort : string := "http2".

Definition ErrNoValidLoadbalancerDomain : error :=
  errors_New "unable to find Ingress LoadBalancer with DomainInternal set".

(** Constants of the packages [knative.dev/networking] and
    [knative.dev/serving] that the file imports:
    [networking.IngressLabelKey],
    [networkingv1alpha1.IngressVisibilityClusterLocal] and
    [config.DefaultMaxRevisionTimeoutSeconds]. *)
Record Imports := {
  IngressLabelKey : string;
  IngressVisibilityClusterLocal : string;
  DefaultMaxRevisionTimeoutSeconds : Z
}.

Section Resources.

Import networkingv1alpha1.

Variable pkg : Imports.

(** [fmt.Sprintf("%vs", config.DefaultMaxRevisionTimeoutSeconds)] *)
Definition defaultTimeout : string :=
  Fmt.int (DefaultMaxRevisionTimeoutSeconds pkg) +:+ "s".

(** The value written for one path: the deprecated timeout in seconds
    under [%v] followed by [s], or the default. *)
Definition pathTimeout (p : HTTPIngressPath) : string :=
  match DeprecatedTimeout p with
  | Some d => Fmt.float64 (Duration.Seconds d) +:+ "s"
  | None => defaultTimeout
  end.

(** [for i := range rule.HTTP.Paths { ... }] *)
Fixpoint setTimeouts (annotations : option nat) (paths : list HTTPIngressPath)
  : M unit :=
  match paths with
  | [] => ret tt
  | p :: rest =>
      _ <- mapassign annotations TimeoutAnnotation (pathTimeout p) ;;
      setTimeouts annotations rest
  end.

(** [for _, lbIngress := range ci.Status.PublicLoadBalancer.Ingress { ... }],
    on the variables [serviceName] and [namespace]. *)
Fixpoint resolveBackend (lbs : list LoadBalancerIngressStatus)
    (serviceName namespace : string) : M (string * string) :=
  match lbs with
  | [] => ret (serviceName, namespace)
  | lbIngress :: rest =>
      if negb (String.eqb (DomainInternal lbIngress) "") then
        let parts := GoString.Split1 (DomainInternal lbIngress) GoString.dot in
        if (2 <? length parts)%nat then
          p2 <- index parts 2 ;;
          if String.eqb p2 "svc" then
            p0 <- index parts 0 ;;
            p1 <- index parts 1 ;;
            resolveBackend rest p0 p1
          else resolveBackend rest serviceName namespace
        else resolveBackend rest serviceName namespace
      else resolveBackend rest serviceName namespace
  end.

Definition makeRoute (ci : Ingress) (host : string) (rule : IngressRule)
  : M (option routev1.Route * option error) :=
  annotations <- match GetAnnotations ci with
                 | Some l => ret (Some l)
                 | None => l <- makemap ;; ret (Some l)
                 end ;;
  if String.eqb (Visibility rule) (IngressVisibilityClusterLocal pkg) then
    ret (None, None)
  else
  disabled <- mapaccess annotations DisableRouteAnnotation ;;
  if disabled is Some _ then ret (None, None) else
  _ <- match HTTP rule with
       | Some http => setTimeouts annotations (Paths http)
       | None => ret tt
       end ;;
  let labels :=
    UnionMaps [metav1.Labels (Meta ci); {[ IngressLabelKey pkg := GetName ci ]}] in
  let name := routeName (GetUID ci) host in
  backend <- match PublicLoadBalancer (Status ci) with
             | Some lb => resolveBackend (Ingress_ lb) "" ""
             | None => ret (""%string, ""%string)
             end ;;
  let serviceName := fst backend in
  let namespace := snd backend in
  if String.eqb serviceName "" || String.eqb namespace "" then
    ret (None, Some ErrNoValidLoadbalancerDomain)
  else
    ret (Some {|
      routev1.Meta := {|
        metav1.Name := name;
        metav1.Namespace := namespace;
        metav1.UID := "";
        metav1.Labels := labels;
        metav1.Annotations := annotations
      |};
      routev1.Spec := {|
        routev1.Host := host;
        routev1.Port :=
          Some {| routev1.TargetPort := intstr.FromString KourierHTTPPort |};
        routev1.To := {|
          routev1.Kind := "Service";
          routev1.Name := serviceName;
          routev1.Weight := Some 100
        |};
        routev1.TLS := Some {|
          routev1.Termination := routev1.TLSTerminationEdge;
          routev1.InsecureEdgeTerminationPolicy :=
            routev1.InsecureEdgeTerminationPolicyAllow
        |};
        routev1.WildcardPolicy := routev1.WildcardPolicyNone
      |}
    |}, None).

(** The inner loop of [MakeRoutes], over the hosts of one rule: either
    the function returns from inside the loop ([inl], with the returned
    pair), or the loop runs to its end ([inr], with [routes]). *)
Fixpoint hostsLoop (ci : Ingress) (rule : IngressRule) (hosts : list string)
    (routes : list routev1.Route)
  : M ((option (list routev1.Route) * option error) + list routev1.Route) :=
  match hosts with
  | [] => ret (inr routes)
  | host :: rest =>
      let parts := GoString.Split1 host GoString.dot in
      if (2 <? length parts)%nat then
        p2 <- index parts 2 ;;
        if negb (String.eqb p2 "svc") then
          r <- makeRoute ci host rule ;;
          match r with
          | (_, Some err) => ret (inl (None, Some err))
          | (None, None) => hostsLoop ci rule rest routes
          | (Some route, None) => hostsLoop ci rule rest (routes ++ [route])
          end
        else hostsLoop ci rule rest routes
      else hostsLoop ci rule rest routes
  end.

(** The outer loop, over the rules. *)
Fixpoint rulesLoop (ci : Ingress) (rules : list IngressRule)
    (routes : list routev1.Route)
  : M (option (list routev1.Route) * option error) :=
  match rules with
  | [] => ret (Some routes, None)
  | rule :: rest =>
      if String.eqb (Visibility rule) (IngressVisibilityClusterLocal pkg) then
        rulesLoop ci rest routes
      else
        r <- hostsLoop ci rule (Hosts rule) routes ;;
        match r with
        | inl returned => ret returned
        | inr routes' => rulesLoop ci rest routes'
        end
  end.

(** [MakeRoutes] creates OpenShift Routes from a Knative Ingress. *)
Definition MakeRoutes (ci : Ingress)
  : M (option (list routev1.Route) * option error) :=
  rulesLoop ci (Rules (Spec ci)) [].

(** ** Vocabulary of the properties *)

(** The load-balancer endpoints [makeRoute] scans. *)
Definition endpoints (ci : Ingress) : list LoadBalancerIngressStatus :=
  match PublicLoadBalancer (Status ci) with
  | Some lb => Ingress_ lb
  | None => []
  end.

(** An endpoint qualifies when its internal domain is not empty, splits
    on [.] into more than two segments and has [svc] as the third; it
    then yields the first segment as service name and the second as
    namespace. *)
Definition backendOf (lb : LoadBalancerIngressStatus)
  : option (string * string) :=
  if String.eqb (DomainInternal lb) "" then None
  else match GoString.Split1 (DomainInternal lb) GoString.dot with
       | p0 :: p1 :: p2 :: _ =>
           if String.eqb p2 "svc" then Some (p0, p1) else None
       | _ => None
       end.

(** The pair of the last qualifying endpoint, if any. *)
Definition resolved (ci : Ingress) : option (string * string) :=
  last (omap backendOf (endpoints ci)).

(** The external-host test of [MakeRoutes]: more than two segments, the
    third not [svc]. *)
Definition externalHost (host : string) : bool :=
  match GoString.Split1 host GoString.dot with
  | _ :: _ :: p2 :: _ => negb (String.eqb p2 "svc")
  | _ => false
  end.

Definition clusterLocal (rule : IngressRule) : bool :=
  String.eqb (Visibility rule) (IngressVisibilityClusterLocal pkg).

(** The (rule, host) pairs on which route construction is to be
    invoked, in rule and host order. *)
Definition calls (rules : list IngressRule) : list (IngressRule * string) :=
  flat_map (fun rule =>
              if clusterLocal rule then []
              else map (pair rule) (List.filter externalHost (Hosts rule)))
           rules.

(** Route construction invoked on a list of (rule, host) pairs in turn,
    stopping at the first error. *)
Fixpoint build (ci : Ingress) (cs : list (IngressRule * string))
    (routes : list routev1.Route)
  : M (option (list routev1.Route) * option error) :=
  match cs with
  | [] => ret (Some routes, None)
  | (rule, host) :: rest =>
      r <- makeRoute ci host rule ;;
      match r with
      | (_, Some err) => ret (None, Some err)
      | (None, None) => build ci rest routes
      | (Some route, None) => build ci rest (routes ++ [route])
      end
  end.

(** [Processed ci cs h routes h']: from heap [h], [makeRoute] was run on
    every pair of [cs] in turn without an error, produced [routes] (a
    skip producing none) and left heap [h']. *)
Inductive Processed (ci : Ingress)
  : list (IngressRule * string) -> heap -> list routev1.Route -> heap -> Prop :=
| Processed_nil h : Processed ci [] h [] h
| Processed_skip rule host cs h h1 routes h' :
    makeRoute ci host rule h = Some ((None, None), h1) ->
    Processed ci cs h1 routes h' ->
    Processed ci ((rule, host) :: cs) h routes h'
| Processed_route rule host cs h route h1 routes h' :
    makeRoute ci host rule h = Some ((Some route, None), h1) ->
    Processed ci cs h1 routes h' ->
    Processed ci ((rule, host) :: cs) h (route :: routes) h'.

(** The ingress carries the disable-marker annotation. *)
Definition disabled (ci : Ingress) (h : heap) : Prop :=
  exists l, GetAnnotations ci = Some l
            /\ is_Some (contents h l !! DisableRouteAnnotation).

(** The ingress with a host removed from every rule. *)
Definition withoutHost (host : string) (ci : Ingress) : Ingress :=
  {| Meta := Meta ci;
     Spec := {| Rules :=
       map (fun rule =>
              {| Hosts := List.filter (fun x => negb (String.eqb x host))
                                      (Hosts rule);
                 Visibility := Visibility rule;
                 HTTP := HTTP rule |})
           (Rules (Spec ci)) |};
     Status := Status ci |}.

(** Backend resolution leaves [serviceName] or [namespace] empty. *)
Definition unresolved (ci : Ingress) : Prop :=
  match resolved ci with
  | Some (s, n) => s = ""%string \/ n = ""%string
  | None => True
  end.

(** [h'] differs from [h] at most by timeout annotations and new maps:
    every other key of every map reads as before, every map of [h]
    other than the ingress's own is as it was, and no map is gone. *)
Definition onlyTimeoutWritten (ci : Ingress) (h h' : heap) : Prop :=
  (forall l k, k <> TimeoutAnnotation ->
               contents h' l !! k = contents h l !! k)
  /\ (forall l, l ∈ dom h -> GetAnnotations ci <> Some l -> h' !! l = h !! l)
  /\ dom h ⊆ dom h'.

(** The annotation maps the routes refer to. *)
Definition annotationMaps (routes : list routev1.Route) : list nat :=
  omap (fun r => metav1.Annotations (routev1.Meta r)) routes.

(** The map [makeRoute] works on and the heap it continues with: the
    ingress's own map, or a newly made one when that is nil. *)
Definition annotationsOf (ci : Ingress) (h : heap) : nat * heap :=
  match GetAnnotations ci with
  | Some l => (l, h)
  | None => (fresh (dom h), <[fresh (dom h) := ∅]> h)
  end.

(** The heap after the loop over the paths of [rule] wrote to the map
    at [l]. *)
Definition withTimeout (rule : IngressRule) (l : nat) (h : heap) : heap :=
  match HTTP rule with
  | Some http =>
      match last (Paths http) with
      | Some p =>
          <[l := <[TimeoutAnnotation := pathTimeout p]> (contents h l)]> h
      | None => h
      end
  | None => h
  end.

(** The route [makeRoute] builds on the map at [l] for a resolved
    backend. *)
Definition routeFor (ci : Ingress) (host : string) (l : nat)
    (serviceName namespace : string) : routev1.Route :=
  {| routev1.Meta := {|
       metav1.Name := routeName (GetUID ci) host;
       metav1.Namespace := namespace;
       metav1.UID := "";
       metav1.Labels :=
         UnionMaps [metav1.Labels (Meta ci);
                    {[ IngressLabelKey pkg := GetName ci ]}];
       metav1.Annotations := Some l |};
     routev1.Spec := {|
       routev1.Host := host;
       routev1.Port :=
         Some {| routev1.TargetPort := intstr.String KourierHTTPPort |};
       routev1.To := {| routev1.Kind := "Service";
                        routev1.Name := serviceName;
                        routev1.Weight := Some 100 |};
       routev1.TLS := Some {|
         routev1.Termination := routev1.TLSTerminationEdge;
         routev1.InsecureEdgeTerminationPolicy :=
           routev1.InsecureEdgeTerminationPolicyAllow |};
       routev1.WildcardPolicy := routev1.WildcardPolicyNone |} |}.

End Resources.

(** The values of the imported constants in the upstream packages. *)
Definition upstream : Imports := {|
  IngressLabelKey := "networking.internal.knative.dev/ingress";
  IngressVisibilityClusterLocal := "ClusterLocal";
  DefaultMaxRevisionTimeoutSeconds := 600
|}.

Definition IngressVisibilityExternalIP : string := "ExternalIP".

(** ** Sample objects *)

Module Sample.
Import networkingv1alpha1.

Definition path (d : option Z) : HTTPIngressPath :=
  {| DeprecatedTimeout := d |}.

Definition rule (hosts : list string) (visibility : string)
    (paths : option (list HTTPIngressPath)) : IngressRule :=
  {| Hosts := hosts; Visibility := visibility;
     HTTP := match paths with
             | Some ps => Some {| Paths := ps |}
             | None => None
             end |}.

Definition ingress (annotations : option nat) (rules : list IngressRule)
    (domains : option (list string)) : Ingress :=
  {| Meta := {| metav1.Name := "ing"; metav1.Namespace := "default";
                metav1.UID := "abc123";
                metav1.Labels := {[ "app" := "demo" ]};
                metav1.Annotations := annotations |};
     Spec := {| Rules := rules |};
     Status := {| PublicLoadBalancer :=
       match domains with
       | Some ds =>
           Some {| Ingress_ := map (fun d => {| DomainInternal := d |}) ds |}
       | None => None
       end |} |}.

(** One external rule for ["foo.example.com"] with a 600 s path
    timeout. *)
Definition external600 : IngressRule :=
  rule ["foo.example.com"] IngressVisibilityExternalIP
       (Some [path (Some 600000000000)]).

Definition kourier : option (list string) :=
  Some ["kourier.ns.svc.cluster.local"].

(** A valid endpoint followed by a qualifying one whose first segment is
    empty. *)
Definition shadowed : option (list string) :=
  Some ["kourier.ns.svc.cluster.local"; ".ns.svc"].

(** An external rule with an external host, a cluster-internal service
    name and an apex domain. *)
Definition mixed : IngressRule :=
  rule ["foo.example.com"; "foo.ns.svc.cluster.local"; "foo.com"]
       IngressVisibilityExternalIP (Some [path (Some 600000000000)]).

Definition clusterLocalRule : IngressRule :=
  rule ["foo.example.com"] (IngressVisibilityClusterLocal upstream) None.

(** A heap with the ingress's annotation map, holding one annotation,
    at location 0. *)
Definition heap0 : heap := {[ 0%nat := {[ "owner" := "team-a" ]} ]}.


Definition host : string := "foo.example.com".

(** Ingresses whose annotation map is the one at location 0. *)
Definition resolvedIngress : Ingress :=
  ingress (Some 0%nat) [external600] kourier.
Definition unresolvedIngress : Ingress :=
  ingress (Some 0%nat) [external600] None.
Definition shadowedIngress : Ingress :=
  ingress (Some 0%nat) [external600] shadowed.
Definition mixedIngress : Ingress := ingress (Some 0%nat) [mixed] kourier.
Definition localIngress : Ingress :=
  ingress (Some 0%nat) [clusterLocalRule] kourier.

(** An ingress whose annotation map is nil. *)
Definition nilIngress : Ingress := ingress None [external600] kourier.


(** [heap0] once the timeout annotation has been written to the map at
    location 0. *)
Definition heap600 : heap :=
  <[ 0%nat := <[ TimeoutAnnotation := "600s" ]> {[ "owner" := "team-a" ]} ]>
    heap0.

(** The route for [host] on the map at location [l]. *)
Definition route600 (ci : Ingress) (l : nat) : routev1.Route :=
  routeFor upstream ci host l "kourier" "ns".

(** An ingress none of whose endpoints is usable: two segments only, an
    empty internal domain, a third segment other than [svc]. *)
Definition unusableIngress : Ingress :=
  ingress (Some 0%nat) [external600] (Some ["kourier.ns"; ""; "a.b.c"]).

(** An ingress with nothing to route and no load-balancer status: a
    cluster-internal service name and an apex domain in an external
    rule, and a cluster-local rule. *)
Definition internalIngress : Ingress :=
  ingress (Some 0%nat)
    [ rule ["foo.ns.svc.cluster.local"; "foo.com"]
           IngressVisibilityExternalIP (Some [path None]);
      clusterLocalRule ]
    None.

End Sample.

(** * Properties *)

(** ** Route names *)

Lemma Hex_encode_length (bs : list Z) :
  String.length (Hex.encode bs) = (2 * length bs)%nat.
Proof.
  induction bs as [|b bs IH]; simpl; [reflexivity|]. rewrite IH. lia.
Qed.

Lemma Sum256_length (data : list Z) : length (SHA256.Sum256 data) = 32%nat.
Proof. reflexivity. Qed.

Lemma bytes_length (s : string) : length (GoString.bytes s) = String.length s.
Proof.
  unfold GoString.bytes. rewrite length_map.
  induction s as [|c s IH]; [reflexivity|].
  change (S (length (list_ascii_of_string s)) = S (String.length s)).
  now rewrite IH.
Qed.

Lemma substring_length (s : string) (n k : nat) :
  (n + k <= String.length s)%nat ->
  String.length (String.substring n k s) = k.
Proof.
  revert n k. induction s as [|c s IH]; intros n k Hle; simpl in *.
  - destruct n, k; simpl; lia.
  - destruct n as [|n].
    + destruct k as [|k]; simpl; [reflexivity|]. rewrite IH; [reflexivity | lia].
    + apply IH. lia.
Qed.

(** The slice [[0:6]] in [hashHost] is always inside the 64 characters
    of the hexadecimal digest. *)
Lemma hashHost_slice_in_range (host : string) :
  String.length (Hex.encode (SHA256.Sum256 (GoString.bytes host))) = 64%nat.
Proof. rewrite Hex_encode_length, Sum256_length. reflexivity. Qed.

Lemma hashHost_length (host : string) : String.length (hashHost host) = 6%nat.
Proof.
  unfold hashHost, GoString.slice. apply substring_length.
  rewrite hashHost_slice_in_range. lia.
Qed.

Lemma append_length (a b : string) :
  String.length (a +:+ b) = (String.length a + String.length b)%nat.
Proof.
  induction a as [|c a IH]; [reflexivity|].
  change (S (String.length (a +:+ b))
          = (S (String.length a) + String.length b)%nat).
  now rewrite IH.
Qed.

Lemma digit_is_digit (n : Z) : Hex.is_digit (Hex.digit n) = true.
Proof.
  destruct n as [|p|p]; try reflexivity.
  do 4 (try destruct p as [p|p|]; try reflexivity).
Qed.

Lemma Hex_encode_digits (bs : list Z) : Hex.all_digits (Hex.encode bs) = true.
Proof.
  induction bs as [|b bs IH]; [reflexivity|].
  cbn [Hex.encode Hex.all_digits]. now rewrite !digit_is_digit, IH.
Qed.

(** What [routeName] appends to ["route-<uid>-"]: the [%x] rendering of
    the six characters [hashHost] returns, twelve characters long. *)
Lemma routeName_suffix (uid host : string) :
  routeName uid host
  = "route-" +:+ uid +:+ "-" +:+ Hex.encode (GoString.bytes (hashHost host))
  /\ String.length (Hex.encode (GoString.bytes (hashHost host))) = 12%nat.
Proof.
  split; [reflexivity|].
  rewrite Hex_encode_length, bytes_length, hashHost_length. reflexivity.
Qed.

(** C1. The claim is that [routeName] yields ["route-<uid>-<t>"] with
    [<t>] exactly the first six hexadecimal characters of the SHA-256
    digest of the host. [hashHost] returns those six characters, but
    [routeName] formats them with [%x] once more: what follows
    ["route-<uid>-"] is always twelve hexadecimal characters, the
    rendering of the six in hexadecimal, and never the six themselves.
    On owner id ["abc123"] and host ["foo.example.com"] the six
    characters are ["45a335"] and the name is
    ["route-abc123-343561333335"]. *)
Theorem routeName_rehexes_the_hash :
  (forall uid host,
      exists t,
        routeName uid host = "route-" +:+ uid +:+ "-" +:+ t
        /\ t = Hex.encode (GoString.bytes (hashHost host))
        /\ String.length t = 12%nat
        /\ Hex.all_digits t = true
        /\ String.length (hashHost host) = 6%nat
        /\ routeName uid host <> "route-" +:+ uid +:+ "-" +:+ hashHost host)
  /\ hashHost "foo.example.com" = "45a335"
  /\ routeName "abc123" "foo.example.com" = "route-abc123-343561333335".
Proof.
  split; [|split; vm_compute; reflexivity].
  intros uid host. destruct (routeName_suffix uid host) as [Hname Hlen].
  eexists. split; [exact Hname|]. split; [reflexivity|].
  split; [exact Hlen|]. split; [apply Hex_encode_digits|].
  split; [apply hashHost_length|].
  intros Heq. apply (f_equal String.length) in Heq.
  rewrite Hname, !append_length, Hlen, hashHost_length in Heq. lia.
Qed.

(** ** Sample values of the runtime functions *)

Example Split1_samples :
  GoString.Split1 "kourier.knative-serving-ingress.svc.cluster.local"
                  GoString.dot
  = ["kourier"; "knative-serving-ingress"; "svc"; "cluster"; "local"]%string
  /\ GoString.Split1 "foo.com" GoString.dot = ["foo"; "com"]%string
  /\ GoString.Split1 "" GoString.dot = [""%string]
  /\ GoString.Split1 ".ns.svc" GoString.dot = [""; "ns"; "svc"]%string
  /\ GoString.Split1 "a..b." GoString.dot = ["a"; ""; "b"; ""]%string.
Proof. repeat split. Qed.

(** The test vectors of FIPS 180-4 for one and two blocks, and the empty
    message. *)
Example Sum256_samples :
  Hex.encode (SHA256.Sum256 (GoString.bytes "abc"))
  = "ba7816bf8f01cfea414140de5dae2223b00361a396177a9cb410ff61f20015ad"
  /\ Hex.encode (SHA256.Sum256 (GoString.bytes
       "abcdbcdecdefdefgefghfghighijhijkijkljklmklmnlmnomnopnopq"))
     = "248d6a61d20638b8e5c026930c3e6039a33ce45964ff2167f6ecedd419db06c1"
  /\ Hex.encode (SHA256.Sum256 (GoString.bytes ""))
     = "e3b0c44298fc1c149afbf4c8996fb92427ae41e4649b934ca495991b7852b855".
Proof. repeat split; vm_compute; reflexivity. Qed.

(** Durations under [%v] of [Seconds()]: whole and fractional seconds,
    and the exponent form [%v] switches to from a million seconds on and
    below a ten-thousandth of a second. *)
Example Seconds_samples :
  map (fun d => Fmt.float64 (Duration.Seconds d))
      [ 600000000000; 10000000000; 1500000000; 100000000; 1000000; 1;
        0; -1500000000; 999999000000000; 1000000000000000;
        9223372036854775807 ]
  = [ "600"; "10"; "1.5"; "0.1"; "0.001"; "1e-09";
      "0"; "-1.5"; "999999"; "1e+06"; "9.223372036854776e+09" ]%string.
Proof. vm_compute. reflexivity. Qed.

(** Every whole number of seconds up to ten minutes is written as the
    integer is. *)
Example Seconds_whole :
  forallb (fun n =>
             String.eqb
               (Fmt.float64 (Duration.Seconds (Z.of_nat n * Duration.Second)))
               (Fmt.int (Z.of_nat n)))
          (seq 0 601)
  = true.
Proof. vm_compute. reflexivity. Qed.

Example defaultTimeout_samples :
  defaultTimeout upstream = "600s"
  /\ defaultTimeout {| IngressLabelKey := IngressLabelKey upstream;
                        IngressVisibilityClusterLocal :=
                          IngressVisibilityClusterLocal upstream;
                        DefaultMaxRevisionTimeoutSeconds := 300 |}
     = "300s".
Proof. split; reflexivity. Qed.

(** ** The loops of [makeRoute] *)

Section Properties.

Import networkingv1alpha1.

Variable pkg : Imports.

Lemma contents_insert (h : heap) (l : nat) (m : gmap string string) :
  contents (<[l := m]> h) l = m.
Proof. unfold contents. now rewrite lookup_insert_eq. Qed.

Lemma last_cons_default {A} (d x : A) (xs : list A) :
  default d (last (x :: xs)) = default x (last xs).
Proof.
  revert d x. induction xs as [|y ys IH]; intros d x; [reflexivity|].
  change (last (x :: y :: ys)) with (last (y :: ys)).
  rewrite (IH d y). symmetry. apply IH.
Qed.

(** The loop over the paths leaves the value of the last path. *)
Lemma setTimeouts_last (l : nat) (paths : list HTTPIngressPath) (h : heap) :
  setTimeouts pkg (Some l) paths h
  = Some (tt, match last paths with
              | Some p =>
                  <[l := <[TimeoutAnnotation := pathTimeout pkg p]>
                           (contents h l)]> h
              | None => h
              end).
Proof.
  revert h. induction paths as [|p rest IH]; intros h; [reflexivity|].
  cbn [setTimeouts]. unfold bind, mapassign. rewrite IH.
  destruct rest as [|q rest]; [reflexivity|].
  change (last (p :: q :: rest)) with (last (q :: rest)).
  destruct (last (q :: rest)) as [p'|] eqn:Hlast.
  - rewrite contents_insert, insert_insert_eq, insert_insert_eq. reflexivity.
  - apply last_None in Hlast. discriminate.
Qed.

(** The loop over the endpoints never panics and leaves the pair of the
    last qualifying endpoint in [serviceName] and [namespace]. *)
Lemma resolveBackend_last (lbs : list LoadBalancerIngressStatus)
    (s n : string) (h : heap) :
  resolveBackend lbs s n h
  = Some (default (s, n) (last (omap backendOf lbs)), h).
Proof.
  revert s n. induction lbs as [|lb rest IH]; intros s n; [reflexivity|].
  cbn [resolveBackend omap list_omap]. unfold backendOf at 1.
  destruct (String.eqb (DomainInternal lb) "") eqn:Hempty; cbn [negb].
  { apply IH. }
  destruct (GoString.Split1 (DomainInternal lb) GoString.dot)
    as [|p0 [|p1 [|p2 parts]]]; try apply IH.
  cbn. unfold bind, index. cbn.
  destruct (String.eqb p2 "svc"); [|apply IH].
  rewrite IH, last_cons_default. reflexivity.
Qed.

(** [makeRoute] in closed form. *)
Lemma makeRoute_eq (ci : Ingress) (host : string) (rule : IngressRule)
    (h : heap) :
  makeRoute pkg ci host rule h
  = let l := fst (annotationsOf ci h) in
    let h1 := snd (annotationsOf ci h) in
    if clusterLocal pkg rule then Some ((None, None), h1)
    else if contents h1 l !! DisableRouteAnnotation is Some _
    then Some ((None, None), h1)
    else
      let h2 := withTimeout pkg rule l h1 in
      match resolved ci with
      | Some (s, n) =>
          if String.eqb s "" || String.eqb n ""
          then Some ((None, Some ErrNoValidLoadbalancerDomain), h2)
          else Some ((Some (routeFor pkg ci host l s n), None), h2)
      | None => Some ((None, Some ErrNoValidLoadbalancerDomain), h2)
      end.
Proof.
  unfold makeRoute, annotationsOf, clusterLocal.
  assert (Hpre : forall (l : nat) (h1 : heap),
    bind (ret (Some l)) (fun annotations =>
      if String.eqb (Visibility rule) (IngressVisibilityClusterLocal pkg)
      then ret (None, None)
      else
        disabled <- mapaccess annotations DisableRouteAnnotation ;;
        if disabled is Some _ then ret (None, None) else
        _ <- match HTTP rule with
             | Some http => setTimeouts pkg annotations (Paths http)
             | None => ret tt
             end ;;
        backend <- match PublicLoadBalancer (Status ci) with
                   | Some lb => resolveBackend (Ingress_ lb) "" ""
                   | None => ret (""%string, ""%string)
                   end ;;
        if String.eqb (fst backend) "" || String.eqb (snd backend) ""
        then ret (None, Some ErrNoValidLoadbalancerDomain)
        else ret (Some (routeFor pkg ci host l (fst backend) (snd backend)), None)) h1
    = if String.eqb (Visibility rule) (IngressVisibilityClusterLocal pkg)
      then Some ((None, None), h1)
      else if contents h1 l !! DisableRouteAnnotation is Some _
      then Some ((None, None), h1)
      else
        let h2 := withTimeout pkg rule l h1 in
        match resolved ci with
        | Some (s, n) =>
            if String.eqb s "" || String.eqb n ""
            then Some ((None, Some ErrNoValidLoadbalancerDomain), h2)
            else Some ((Some (routeFor pkg ci host l s n), None), h2)
        | None => Some ((None, Some ErrNoValidLoadbalancerDomain), h2)
        end).
  { intros l h1. unfold bind at 1. unfold ret at 1.
    destruct (String.eqb (Visibility rule) (IngressVisibilityClusterLocal pkg));
      [reflexivity|].
    unfold bind at 1. unfold mapaccess.
    destruct (contents h1 l !! DisableRouteAnnotation); [reflexivity|].
    unfold bind at 1.
    assert (Hloop : match HTTP rule with
                    | Some http => setTimeouts pkg (Some l) (Paths http)
                    | None => ret tt
                    end h1 = Some (tt, withTimeout pkg rule l h1)).
    { unfold withTimeout. destruct (HTTP rule) as [http|]; [|reflexivity].
      apply setTimeouts_last. }
    rewrite Hloop. cbv zeta.
    unfold bind at 1.
    assert (Hres : match PublicLoadBalancer (Status ci) with
                   | Some lb => resolveBackend (Ingress_ lb) "" ""
                   | None => ret (""%string, ""%string)
                   end (withTimeout pkg rule l h1)
                   = Some (default (""%string, ""%string) (resolved ci),
                           withTimeout pkg rule l h1)).
    { unfold resolved, endpoints.
      destruct (PublicLoadBalancer (Status ci)) as [lb|]; [|reflexivity].
      apply resolveBackend_last. }
    rewrite Hres.
    destruct (resolved ci) as [[s n]|]; [|reflexivity].
    change (default (""%string, ""%string) (Some (s, n))) with (s, n).
    cbn [fst snd]. destruct (String.eqb s "" || String.eqb n ""); reflexivity. }
  destruct (GetAnnotations ci) as [l|]; cbn [fst snd].
  - apply Hpre.
  - unfold bind at 1. unfold bind at 1. unfold makemap at 1. apply Hpre.
Qed.

(** [makeRoute] always returns: none of its indexings is out of range
    and it never writes to a nil map. *)
Lemma makeRoute_total (ci : Ingress) (host : string) (rule : IngressRule)
    (h : heap) :
  exists r h', makeRoute pkg ci host rule h = Some (r, h').
Proof.
  rewrite makeRoute_eq. cbv zeta.
  destruct (clusterLocal pkg rule); [eauto|].
  destruct (contents _ _ !! DisableRouteAnnotation); [eauto|].
  destruct (resolved ci) as [[s n]|]; [|eauto].
  destruct (String.eqb s "" || String.eqb n ""); eauto.
Qed.

(** What a returned route says about the call that built it. *)
Lemma makeRoute_route (ci : Ingress) (host : string) (rule : IngressRule)
    (h h' : heap) (route : routev1.Route) (e : option error) :
  makeRoute pkg ci host rule h = Some ((Some route, e), h') ->
  e = None
  /\ clusterLocal pkg rule = false
  /\ contents (snd (annotationsOf ci h)) (fst (annotationsOf ci h))
       !! DisableRouteAnnotation = None
  /\ h' = withTimeout pkg rule (fst (annotationsOf ci h))
            (snd (annotationsOf ci h))
  /\ exists s n,
       resolved ci = Some (s, n) /\ s <> ""%string /\ n <> ""%string
       /\ route = routeFor pkg ci host (fst (annotationsOf ci h)) s n.
Proof.
  rewrite makeRoute_eq. cbv zeta.
  destruct (clusterLocal pkg rule); [discriminate|].
  destruct (contents _ _ !! DisableRouteAnnotation); [discriminate|].
  destruct (resolved ci) as [[s n]|]; [|discriminate].
  destruct (String.eqb s "") eqn:Hs; [discriminate|].
  destruct (String.eqb n "") eqn:Hn; [discriminate|].
  cbn [orb]. intros [= <- <- <-].
  apply String.eqb_neq in Hs, Hn. repeat split; eauto 10.
Qed.

(** ** The loops of [MakeRoutes] *)

Lemma bind_ret_l {A B} (a : A) (k : A -> M B) : bind (ret a) k = k a.
Proof. reflexivity. Qed.

Lemma hostsLoop_build (ci : Ingress) (rule : IngressRule)
    (k : list routev1.Route -> M (option (list routev1.Route) * option error))
    (after : list (IngressRule * string)) :
  (forall acc h, k acc h = build pkg ci after acc h) ->
  forall hosts acc h,
    bind (hostsLoop pkg ci rule hosts acc)
         (fun r => match r with
                   | inl returned => ret returned
                   | inr routes' => k routes'
                   end) h
    = build pkg ci
        (map (pair rule) (List.filter externalHost hosts) ++ after) acc h.
Proof.
  intros Hk. induction hosts as [|host rest IH]; intros acc h.
  { apply Hk. }
  cbn [hostsLoop List.filter]. unfold externalHost at 1.
  destruct (GoString.Split1 host GoString.dot) as [|p0 [|p1 [|p2 parts]]];
    try apply IH.
  change (2 <? length (p0 :: p1 :: p2 :: parts))%nat with true.
  change (index (p0 :: p1 :: p2 :: parts) 2) with (@ret string p2).
  cbv iota. rewrite bind_ret_l.
  destruct (negb (String.eqb p2 "svc")); [|apply IH].
  cbn [map app build]. unfold bind at 1 2 3.
  destruct (makeRoute pkg ci host rule h) as [[[[route|] [err|]] h1]|];
    try reflexivity; apply IH.
Qed.

Lemma rulesLoop_build (ci : Ingress) (rules : list IngressRule)
    (acc : list routev1.Route) (h : heap) :
  rulesLoop pkg ci rules acc h = build pkg ci (calls pkg rules) acc h.
Proof.
  revert acc h. induction rules as [|rule rest IH]; intros acc h;
    [reflexivity|].
  cbn [rulesLoop calls flat_map]. unfold clusterLocal.
  destruct (String.eqb (Visibility rule) (IngressVisibilityClusterLocal pkg)).
  - apply IH.
  - apply (hostsLoop_build ci rule (rulesLoop pkg ci rest)). exact IH.
Qed.

(** [MakeRoutes] is route construction invoked on [calls] in turn. *)
Lemma MakeRoutes_build (ci : Ingress) (h : heap) :
  MakeRoutes pkg ci h = build pkg ci (calls pkg (Rules (Spec ci))) [] h.
Proof. apply rulesLoop_build. Qed.

Lemma build_processed (ci : Ingress) cs h routes h' :
  Processed pkg ci cs h routes h' ->
  forall acc, build pkg ci cs acc h = Some ((Some (acc ++ routes), None), h').
Proof.
  induction 1 as [h | rule host cs h h1 routes h' Hmk _ IH
                    | rule host cs h route h1 routes h' Hmk _ IH]; intros acc.
  - now rewrite app_nil_r.
  - cbn [build]. unfold bind. rewrite Hmk. apply IH.
  - cbn [build]. unfold bind. rewrite Hmk, IH, <- app_assoc. reflexivity.
Qed.

Lemma build_error (ci : Ingress) pre h routes h1 :
  Processed pkg ci pre h routes h1 ->
  forall rule host post acc x err h2,
    makeRoute pkg ci host rule h1 = Some ((x, Some err), h2) ->
    build pkg ci (pre ++ (rule, host) :: post) acc h
    = Some ((None, Some err), h2).
Proof.
  induction 1 as [h | rule0 host0 cs h h1 routes h' Hmk _ IH
                    | rule0 host0 cs h route h1 routes h' Hmk _ IH];
    intros rule host post acc x err h2 Herr; cbn [app build]; unfold bind.
  - rewrite Herr. destruct x; reflexivity.
  - rewrite Hmk. eapply IH, Herr.
  - rewrite Hmk. eapply IH, Herr.
Qed.

(** A run of [build] either processes every pair or meets a first
    error. *)
Lemma build_cases (ci : Ingress) cs h :
  (exists routes h', Processed pkg ci cs h routes h')
  \/ (exists pre rule host post routes h1 x err h2,
        cs = pre ++ (rule, host) :: post
        /\ Processed pkg ci pre h routes h1
        /\ makeRoute pkg ci host rule h1 = Some ((x, Some err), h2)).
Proof.
  revert h. induction cs as [|[rule host] cs IH]; intros h.
  { left. eauto using Processed_nil. }
  destruct (makeRoute_total ci host rule h) as ([route [err|]] & h1 & Hmk).
  { right. exists [], rule, host, cs, [], h, route, err, h1.
    eauto using Processed_nil. }
  destruct (IH h1) as [(routes & h' & Hp)
    | (pre & rule' & host' & post & routes & h2 & x & err & h3 & -> & Hp & He)].
  - left. destruct route as [route|];
      eauto using Processed_skip, Processed_route.
  - right. destruct route as [route|].
    + exists ((rule, host) :: pre), rule', host', post, (route :: routes).
      eauto 10 using Processed_route.
    + exists ((rule, host) :: pre), rule', host', post, routes.
      eauto 10 using Processed_skip.
Qed.

(** A successful [build] processed every pair. *)
Lemma build_success (ci : Ingress) cs acc h out h' :
  build pkg ci cs acc h = Some ((Some out, None), h') ->
  exists routes, out = acc ++ routes /\ Processed pkg ci cs h routes h'.
Proof.
  intros Hb. destruct (build_cases ci cs h) as [(routes & h1 & Hp)
    | (pre & rule & host & post & routes & h1 & x & err & h2 & -> & Hp & He)].
  - rewrite (build_processed _ _ _ _ _ Hp) in Hb.
    injection Hb as <- <-. eauto.
  - rewrite (build_error _ _ _ _ _ Hp _ _ _ _ _ _ _ He) in Hb. discriminate.
Qed.

(** Every processed route was built by a call on one of the pairs. *)
Lemma Processed_route_origin (ci : Ingress) cs h routes h' :
  Processed pkg ci cs h routes h' ->
  forall route, In route routes ->
    exists rule host h1 h2,
      In (rule, host) cs
      /\ makeRoute pkg ci host rule h1 = Some ((Some route, None), h2).
Proof.
  induction 1 as [h | rule0 host0 cs h h1 routes h' Hmk _ IH
                    | rule0 host0 cs h route0 h1 routes h' Hmk _ IH];
    intros route Hin.
  - destruct Hin.
  - destruct (IH route Hin) as (rule & host & h2 & h3 & Hc & Hm).
    exists rule, host, h2, h3. split; [now right | exact Hm].
  - destruct Hin as [<- | Hin].
    + exists rule0, host0, h, h1. split; [now left | exact Hmk].
    + destruct (IH route Hin) as (rule & host & h2 & h3 & Hc & Hm).
      exists rule, host, h2, h3. split; [now right | exact Hm].
Qed.

(** Membership in [calls]. *)
Lemma in_calls (rules : list IngressRule) (rule : IngressRule)
    (host : string) :
  In (rule, host) (calls pkg rules)
  <-> In rule rules /\ clusterLocal pkg rule = false
      /\ In host (Hosts rule) /\ externalHost host = true.
Proof.
  unfold calls. rewrite in_flat_map. split.
  - intros (rule' & Hr & Hin).
    destruct (clusterLocal pkg rule') eqn:Hl; [destruct Hin|].
    apply in_map_iff in Hin as (host' & [= <- <-] & Hf).
    apply filter_In in Hf as [Hh He]. auto.
  - intros (Hr & Hl & Hh & He). exists rule. split; [exact Hr|].
    rewrite Hl. apply in_map, filter_In. auto.
Qed.

(** ** Skipping *)

Lemma clusterLocal_spec (rule : IngressRule) :
  clusterLocal pkg rule = true
  <-> Visibility rule = IngressVisibilityClusterLocal pkg.
Proof. apply String.eqb_eq. Qed.

Lemma clusterLocal_false (rule : IngressRule) :
  clusterLocal pkg rule = false
  <-> Visibility rule <> IngressVisibilityClusterLocal pkg.
Proof. apply String.eqb_neq. Qed.

(** The disable marker is looked up in the ingress's own map; a newly
    made map does not hold it. *)
Lemma disabled_lookup (ci : Ingress) (h : heap) :
  is_Some (contents (snd (annotationsOf ci h)) (fst (annotationsOf ci h))
             !! DisableRouteAnnotation)
  <-> disabled ci h.
Proof.
  unfold annotationsOf, disabled.
  destruct (GetAnnotations ci) as [l|]; cbn [fst snd].
  - split; [eauto|]. now intros (l' & [= <-] & Hl).
  - rewrite contents_insert, lookup_empty. split.
    + intros [x Hx]. discriminate.
    + intros (l' & [=] & _).
Qed.




(** ** The timeout annotation *)


(** ** The route built *)

Lemma UnionMaps_lookup (labels : gmap string string) (key value k : string) :
  UnionMaps [labels; {[ key := value ]}] !! k
  = if decide (k = key) then Some value else labels !! k.
Proof.
  unfold UnionMaps. cbn [foldl]. rewrite !lookup_union, lookup_empty.
  destruct (decide (k = key)) as [->|Hne].
  - rewrite lookup_singleton_eq. now destruct (labels !! key).
  - rewrite lookup_singleton_ne by congruence. now destruct (labels !! k).
Qed.

(** C8. Every route returned by [makeRoute] has the namespace and the
    service name resolved from the load-balancer status, the input host,
    a [Service] target of weight 100, edge TLS termination with insecure
    traffic allowed, wildcard policy none, the named target port
    [http2], and as labels those of the ingress together with the
    ingress-name label set to the name of the ingress, which wins over a
    label of the ingress with the same key. *)
Theorem route_construction (ci : Ingress) (host : string)
    (rule : IngressRule) (h h' : heap) (route : routev1.Route) :
  makeRoute pkg ci host rule h = Some ((Some route, None), h') ->
  exists serviceName namespace,
    resolved ci = Some (serviceName, namespace)
    /\ metav1.Name (routev1.Meta route) = routeName (GetUID ci) host
    /\ metav1.Namespace (routev1.Meta route) = namespace
    /\ routev1.Host (routev1.Spec route) = host
    /\ routev1.To (routev1.Spec route)
       = {| routev1.Kind := "Service"; routev1.Name := serviceName;
            routev1.Weight := Some 100 |}
    /\ routev1.TLS (routev1.Spec route)
       = Some {| routev1.Termination := routev1.TLSTerminationEdge;
                 routev1.InsecureEdgeTerminationPolicy :=
                   routev1.InsecureEdgeTerminationPolicyAllow |}
    /\ routev1.WildcardPolicy (routev1.Spec route) = routev1.WildcardPolicyNone
    /\ routev1.Port (routev1.Spec route)
       = Some {| routev1.TargetPort := intstr.String "http2" |}
    /\ forall k,
         metav1.Labels (routev1.Meta route) !! k
         = if decide (k = IngressLabelKey pkg) then Some (GetName ci)
           else metav1.Labels (Meta ci) !! k.
Proof.
  intros Hmk.
  apply makeRoute_route in Hmk as (_ & _ & _ & _ & s & n & Hres & _ & _ & ->).
  exists s, n. cbn. repeat (split; [first [exact Hres | reflexivity]|]).
  intros k. apply UnionMaps_lookup.
Qed.

(** ** A nil annotation map *)


(** ** Backend resolution *)

(** C3, amended. Backend resolution scans every endpoint and the last
    qualifying one wins: when [makeRoute] does not skip, it returns
    [ErrNoValidLoadbalancerDomain], with a nil route, if and only if no
    endpoint qualifies or the last qualifying endpoint has an empty
    first or second segment; otherwise it returns a route for the
    service name and namespace of the last qualifying endpoint. The
    internal domain ["kourier.knative-serving-ingress.svc.cluster.local"]
    yields service ["kourier"] and namespace
    ["knative-serving-ingress"]. *)
Theorem backend_resolution (ci : Ingress) (host : string)
    (rule : IngressRule) (h : heap) :
  Visibility rule <> IngressVisibilityClusterLocal pkg ->
  ~ disabled ci h ->
  (exists r h',
      makeRoute pkg ci host rule h = Some (r, h')
      /\ (r = (None, Some ErrNoValidLoadbalancerDomain)
          <-> match last (omap backendOf (endpoints ci)) with
              | Some (s, n) => s = ""%string \/ n = ""%string
              | None => True
              end)
      /\ (snd r = None ->
          exists route,
            fst r = Some route
            /\ last (omap backendOf (endpoints ci))
               = Some (routev1.Name (routev1.To (routev1.Spec route)),
                       metav1.Namespace (routev1.Meta route))))
  /\ backendOf
       {| DomainInternal :=
            "kourier.knative-serving-ingress.svc.cluster.local" |}
     = Some ("kourier"%string, "knative-serving-ingress"%string).
Proof.
  intros Hlocal Hd. split; [|reflexivity].
  apply clusterLocal_false in Hlocal.
  assert (Hnone : contents (snd (annotationsOf ci h))
                    (fst (annotationsOf ci h)) !! DisableRouteAnnotation
                  = None).
  { apply eq_None_not_Some. now rewrite disabled_lookup. }
  rewrite makeRoute_eq. cbv zeta. rewrite Hlocal, Hnone.
  fold (resolved ci). destruct (resolved ci) as [[s n]|].
  - destruct (String.eqb s "") eqn:Hs; cbn [orb].
    { apply String.eqb_eq in Hs. eexists _, _. split; [reflexivity|].
      split; [tauto|]. discriminate. }
    destruct (String.eqb n "") eqn:Hn.
    { apply String.eqb_eq in Hn. eexists _, _. split; [reflexivity|].
      split; [tauto|]. discriminate. }
    apply String.eqb_neq in Hs, Hn. eexists _, _. split; [reflexivity|].
    split.
    + split; [discriminate | tauto].
    + intros _. eexists. split; reflexivity.
  - eexists _, _. split; [reflexivity|]. split; [tauto|]. discriminate.
Qed.

(** ** [MakeRoutes] *)

Lemma externalHost_spec (host : string) :
  externalHost host = true
  <-> (2 < length (GoString.Split1 host GoString.dot))%nat
      /\ GoString.Split1 host GoString.dot !! 2%nat <> Some "svc"%string.
Proof.
  unfold externalHost.
  destruct (GoString.Split1 host GoString.dot) as [|p0 [|p1 [|p2 parts]]];
    cbn; try (split; [discriminate | intros [? _]; lia]).
  rewrite negb_true_iff, String.eqb_neq. split.
  - intros Hne. split; [lia | congruence].
  - intros [_ Hne] ->. now apply Hne.
Qed.

Lemma Processed_hosts (ci : Ingress) cs h routes h' :
  Processed pkg ci cs h routes h' ->
  sublist (map (fun r => routev1.Host (routev1.Spec r)) routes) (map snd cs).
Proof.
  induction 1 as [h | rule host cs h h1 routes h' Hmk _ IH
                    | rule host cs h route h1 routes h' Hmk _ IH]; cbn [map].
  - constructor.
  - now apply sublist_cons.
  - apply makeRoute_route in Hmk as (_ & _ & _ & _ & s & n & _ & _ & _ & ->).
    now apply sublist_skip.
Qed.

(** C4. [MakeRoutes] is fail-fast and all-or-nothing. Route construction
    is invoked on the processed hosts in rule and host order; if it
    returns an error for one of them, the earlier ones having returned
    none, [MakeRoutes] returns that error with a nil list; if it returns
    no error for any of them, [MakeRoutes] returns the routes produced,
    in that order, with a nil error. One of the two is always the
    case. *)
Theorem MakeRoutes_fail_fast (ci : Ingress) (h : heap) :
  (forall pre rule host post routes h1 x err h2,
      calls pkg (Rules (Spec ci)) = pre ++ (rule, host) :: post ->
      Processed pkg ci pre h routes h1 ->
      makeRoute pkg ci host rule h1 = Some ((x, Some err), h2) ->
      MakeRoutes pkg ci h = Some ((None, Some err), h2))
  /\ (forall routes h',
        Processed pkg ci (calls pkg (Rules (Spec ci))) h routes h' ->
        MakeRoutes pkg ci h = Some ((Some routes, None), h')
        /\ sublist (map (fun r => routev1.Host (routev1.Spec r)) routes)
                   (map snd (calls pkg (Rules (Spec ci)))))
  /\ ((exists routes h',
         Processed pkg ci (calls pkg (Rules (Spec ci))) h routes h')
      \/ (exists pre rule host post routes h1 x err h2,
            calls pkg (Rules (Spec ci)) = pre ++ (rule, host) :: post
            /\ Processed pkg ci pre h routes h1
            /\ makeRoute pkg ci host rule h1 = Some ((x, Some err), h2))).
Proof.
  split; [|split].
  - intros pre rule host post routes h1 x err h2 Hcalls Hp Herr.
    rewrite MakeRoutes_build, Hcalls. eapply build_error; eauto.
  - intros routes h' Hp. split.
    + rewrite MakeRoutes_build. apply (build_processed _ _ _ _ _ Hp []).
    + eapply Processed_hosts, Hp.
  - apply build_cases.
Qed.

(** C5. For the hosts of the rules that are not cluster-local,
    [MakeRoutes] invokes route construction, in turn and until a first
    error, on exactly those whose split on [.] has more than two
    segments with a third segment other than [svc]; a host with more
    than two segments and [svc] as the third is never in the output. *)
Theorem external_hosts_only (ci : Ingress) (h : heap) :
  MakeRoutes pkg ci h = build pkg ci (calls pkg (Rules (Spec ci))) [] h
  /\ (forall rule host,
        In (rule, host) (calls pkg (Rules (Spec ci)))
        <-> In rule (Rules (Spec ci))
            /\ Visibility rule <> IngressVisibilityClusterLocal pkg
            /\ In host (Hosts rule)
            /\ (2 < length (GoString.Split1 host GoString.dot))%nat
            /\ GoString.Split1 host GoString.dot !! 2%nat
               <> Some "svc"%string)
  /\ (forall routes h' route,
        MakeRoutes pkg ci h = Some ((Some routes, None), h') ->
        In route routes ->
        ~ ((2 < length (GoString.Split1 (routev1.Host (routev1.Spec route))
                                        GoString.dot))%nat
           /\ GoString.Split1 (routev1.Host (routev1.Spec route)) GoString.dot
                !! 2%nat = Some "svc"%string)).
Proof.
  split; [apply MakeRoutes_build|]. split.
  - intros rule host.
    rewrite in_calls, clusterLocal_false, externalHost_spec. tauto.
  - intros routes h' route Hmk Hin [_ Hsvc].
    rewrite MakeRoutes_build in Hmk.
    apply build_success in Hmk as (rs & -> & Hp).
    destruct (Processed_route_origin _ _ _ _ _ Hp route Hin)
      as (rule & host & h1 & h2 & Hc & Hm).
    apply in_calls in Hc as (_ & _ & _ & Hext).
    apply makeRoute_route in Hm as (_ & _ & _ & _ & s & n & _ & _ & _ & ->).
    apply externalHost_spec in Hext as [_ Hne]. now apply Hne.
Qed.

(** [makeRoute] reads the metadata and the status of the ingress, and
    the visibility and the HTTP block of the rule. *)
Lemma makeRoute_reads (ci ci' : Ingress) (rule rule' : IngressRule)
    (host : string) :
  Meta ci = Meta ci' -> Status ci = Status ci' ->
  Visibility rule = Visibility rule' -> HTTP rule = HTTP rule' ->
  makeRoute pkg ci host rule = makeRoute pkg ci' host rule'.
Proof.
  intros Hm Hs Hv Hh.
  unfold makeRoute, GetAnnotations, GetName, GetUID.
  now rewrite Hm, Hs, Hv, Hh.
Qed.

Lemma hostsLoop_withoutHost (ci ci' : Ingress) (rule rule' : IngressRule)
    (host : string) :
  Meta ci = Meta ci' -> Status ci = Status ci' ->
  Visibility rule = Visibility rule' -> HTTP rule = HTTP rule' ->
  externalHost host = false ->
  forall hosts acc h,
    hostsLoop pkg ci' rule'
      (List.filter (fun x => negb (String.eqb x host)) hosts) acc h
    = hostsLoop pkg ci rule hosts acc h.
Proof.
  intros Hm Hs Hv Hh Hext.
  induction hosts as [|x rest IH]; intros acc h; [reflexivity|].
  cbn [List.filter]. destruct (String.eqb x host) eqn:Hx; cbn [negb].
  - apply String.eqb_eq in Hx. subst x. rewrite IH. cbn [hostsLoop].
    unfold externalHost in Hext.
    destruct (GoString.Split1 host GoString.dot) as [|p0 [|p1 [|p2 parts]]];
      try reflexivity.
    change (2 <? length (p0 :: p1 :: p2 :: parts))%nat with true.
    change (index (p0 :: p1 :: p2 :: parts) 2) with (@ret string p2).
    cbv iota. rewrite bind_ret_l, Hext. reflexivity.
  - cbn [hostsLoop].
    destruct (2 <? length (GoString.Split1 x GoString.dot))%nat; [|apply IH].
    unfold bind.
    destruct (index (GoString.Split1 x GoString.dot) 2 h) as [[p2 h0]|];
      [|reflexivity].
    destruct (negb (String.eqb p2 "svc")); [|apply IH].
    rewrite (makeRoute_reads ci ci' rule rule' x Hm Hs Hv Hh).
    destruct (makeRoute pkg ci' x rule' h0) as [[[[route|] [err|]] h1]|];
      try reflexivity; apply IH.
Qed.

Lemma rulesLoop_withoutHost (ci : Ingress) (host : string) :
  externalHost host = false ->
  forall rules acc h,
    rulesLoop pkg (withoutHost host ci)
      (map (fun rule =>
              {| Hosts := List.filter (fun x => negb (String.eqb x host))
                                      (Hosts rule);
                 Visibility := Visibility rule;
                 HTTP := HTTP rule |}) rules) acc h
    = rulesLoop pkg ci rules acc h.
Proof.
  intros Hext. induction rules as [|rule rest IH]; intros acc h;
    [reflexivity|].
  cbn [map rulesLoop Visibility Hosts].
  destruct (String.eqb (Visibility rule) (IngressVisibilityClusterLocal pkg));
    [apply IH|].
  unfold bind.
  rewrite (hostsLoop_withoutHost ci (withoutHost host ci) rule _ host)
    by (reflexivity || exact Hext).
  destruct (hostsLoop pkg ci rule (Hosts rule) acc h) as [[[ret|routes] h1]|];
    try reflexivity; apply IH.
Qed.

(** C10. A host whose split on [.] has two segments or fewer (an apex
    domain such as ["foo.com"]) gets no route and causes no error:
    [MakeRoutes] returns what it returns on the ingress without that
    host, and no route of its output is for that host. *)
Theorem short_hosts_excluded (host : string) (ci : Ingress) (h : heap) :
  (length (GoString.Split1 host GoString.dot) <= 2)%nat ->
  MakeRoutes pkg ci h = MakeRoutes pkg (withoutHost host ci) h
  /\ forall routes err h' route,
       MakeRoutes pkg ci h = Some ((Some routes, err), h') ->
       In route routes ->
       routev1.Host (routev1.Spec route) <> host.
Proof.
  intros Hshort.
  assert (Hext : externalHost host = false).
  { apply not_true_is_false. rewrite externalHost_spec. lia. }
  split.
  - symmetry. apply rulesLoop_withoutHost, Hext.
  - intros routes err h' route Hmk Hin Heq.
    rewrite MakeRoutes_build in Hmk.
    assert (err = None) as ->.
    { destruct (build_cases ci (calls pkg (Rules (Spec ci))) h)
        as [(rs & h1 & Hp)
           | (pre & rule & host' & post & rs & h1 & x & e & h2 & Hc & Hp & He)].
      - rewrite (build_processed _ _ _ _ _ Hp) in Hmk. congruence.
      - rewrite Hc, (build_error _ _ _ _ _ Hp _ _ _ _ _ _ _ He) in Hmk.
        discriminate. }
    apply build_success in Hmk as (rs & -> & Hp).
    destruct (Processed_route_origin _ _ _ _ _ Hp route Hin)
      as (rule & host' & h1 & h2 & Hc & Hm).
    apply in_calls in Hc as (_ & _ & _ & Hext').
    apply makeRoute_route in Hm as (_ & _ & _ & _ & s & n & _ & _ & _ & ->).
    cbn in Heq. congruence.
Qed.

End Properties.

(** * The properties on sample objects *)

Lemma heap0_contents : contents Sample.heap0 0 = {[ "owner" := "team-a" ]}.
Proof. unfold contents, Sample.heap0. now rewrite lookup_singleton_eq. Qed.

Lemma heap0_not_disabled (ci : networkingv1alpha1.Ingress) :
  networkingv1alpha1.GetAnnotations ci = Some 0%nat ->
  ~ disabled ci Sample.heap0.
Proof.
  intros Hann (l & Hl & [v Hv]). rewrite Hann in Hl. injection Hl as <-.
  rewrite heap0_contents in Hv.
  rewrite lookup_singleton_ne in Hv; discriminate.
Qed.

Lemma external600_timeout :
  withTimeout upstream Sample.external600 0 Sample.heap0 = Sample.heap600.
Proof.
  unfold withTimeout, Sample.heap600. cbn [networkingv1alpha1.HTTP
    Sample.external600 Sample.rule networkingv1alpha1.Paths last].
  now rewrite heap0_contents.
Qed.

(** [makeRoute] on the sample ingress with a resolvable backend. *)
Lemma makeRoute_resolved :
  makeRoute upstream Sample.resolvedIngress Sample.host Sample.external600
    Sample.heap0
  = Some ((Some (Sample.route600 Sample.resolvedIngress 0), None),
          Sample.heap600).
Proof.
  rewrite makeRoute_eq.
  change (annotationsOf Sample.resolvedIngress Sample.heap0)
    with (0%nat, Sample.heap0).
  cbn [fst snd]. cbv zeta. rewrite heap0_contents, external600_timeout.
  reflexivity.
Qed.

(** [makeRoute] on the sample ingress without a load-balancer status. *)
Lemma makeRoute_unresolved :
  makeRoute upstream Sample.unresolvedIngress Sample.host Sample.external600
    Sample.heap0
  = Some ((None, Some ErrNoValidLoadbalancerDomain), Sample.heap600).
Proof.
  rewrite makeRoute_eq.
  change (annotationsOf Sample.unresolvedIngress Sample.heap0)
    with (0%nat, Sample.heap0).
  cbn [fst snd]. cbv zeta. rewrite heap0_contents, external600_timeout.
  reflexivity.
Qed.

(** C2. The claim is that [makeRoute] leaves its input ingress
    unchanged, its annotation map in particular. The map of the sample
    ingress, at location 0, holds one annotation before the call; the
    route returned refers to this very map, and after the call the map
    holds the timeout annotation as well. The same happens when the call
    returns [ErrNoValidLoadbalancerDomain], and through [MakeRoutes]. *)
Theorem makeRoute_writes_to_the_ingress_annotations :
  networkingv1alpha1.GetAnnotations Sample.resolvedIngress = Some 0%nat
  /\ contents Sample.heap0 0 = {[ "owner" := "team-a" ]}
  /\ makeRoute upstream Sample.resolvedIngress Sample.host
       Sample.external600 Sample.heap0
     = Some ((Some (Sample.route600 Sample.resolvedIngress 0), None),
             Sample.heap600)
  /\ metav1.Annotations
       (routev1.Meta (Sample.route600 Sample.resolvedIngress 0))
     = Some 0%nat
  /\ makeRoute upstream Sample.unresolvedIngress Sample.host
       Sample.external600 Sample.heap0
     = Some ((None, Some ErrNoValidLoadbalancerDomain), Sample.heap600)
  /\ MakeRoutes upstream Sample.resolvedIngress Sample.heap0
     = Some ((Some [Sample.route600 Sample.resolvedIngress 0], None),
             Sample.heap600)
  /\ contents Sample.heap600 0
     = <[ TimeoutAnnotation := "600s" ]> {[ "owner" := "team-a" ]}
  /\ contents Sample.heap600 0 <> contents Sample.heap0 0.
Proof.
  split; [reflexivity|]. split; [apply heap0_contents|].
  split; [apply makeRoute_resolved|]. split; [reflexivity|].
  split; [apply makeRoute_unresolved|].
  split.
  { rewrite MakeRoutes_build.
    change (calls upstream
              (networkingv1alpha1.Rules
                 (networkingv1alpha1.Spec Sample.resolvedIngress)))
      with [(Sample.external600, Sample.host)].
    cbn [build]. unfold bind. now rewrite makeRoute_resolved. }
  assert (Hc : contents Sample.heap600 0
               = <[ TimeoutAnnotation := "600s" ]> {[ "owner" := "team-a" ]})
    by apply contents_insert.
  split; [exact Hc|].
  rewrite Hc, heap0_contents. intros Heq.
  apply (f_equal (fun m => m !! TimeoutAnnotation)) in Heq.
  rewrite lookup_insert_eq, lookup_singleton_ne in Heq; discriminate.
Qed.

(** C3, as stated, fails on the sample ingress whose endpoints are
    ["kourier.ns.svc.cluster.local"] and [".ns.svc"]: the first endpoint
    yields a non-empty service name and a non-empty namespace, yet
    [makeRoute], which does not skip here, returns
    [ErrNoValidLoadbalancerDomain], the second endpoint having
    overwritten the service name with the empty string. *)
Lemma backend_error_despite_valid_endpoint :
  networkingv1alpha1.Visibility Sample.external600
    <> IngressVisibilityClusterLocal upstream
  /\ ~ disabled Sample.shadowedIngress Sample.heap0
  /\ ~ ((exists h',
           makeRoute upstream Sample.shadowedIngress Sample.host
             Sample.external600 Sample.heap0
           = Some ((None, Some ErrNoValidLoadbalancerDomain), h'))
        <-> ~ (exists lb s n,
                 In lb (endpoints Sample.shadowedIngress)
                 /\ backendOf lb = Some (s, n)
                 /\ s <> ""%string /\ n <> ""%string)).
Proof.
  split; [discriminate|]. split; [now apply heap0_not_disabled|].
  intros [Herr _]. apply Herr.
  - exists Sample.heap600. rewrite makeRoute_eq.
    change (annotationsOf Sample.shadowedIngress Sample.heap0)
      with (0%nat, Sample.heap0).
    cbn [fst snd]. cbv zeta. rewrite heap0_contents, external600_timeout.
    reflexivity.
  - exists {| networkingv1alpha1.DomainInternal :=
                "kourier.ns.svc.cluster.local" |},
           "kourier"%string, "ns"%string.
    split; [now left|]. split; [reflexivity|]. split; discriminate.
Qed.

(** [backend_resolution] on the ingress with the shadowed endpoint: the
    error is returned. *)
Lemma backend_resolution_witness :
  networkingv1alpha1.Visibility Sample.external600
    <> IngressVisibilityClusterLocal upstream
  /\ ~ disabled Sample.shadowedIngress Sample.heap0
  /\ exists r h',
       makeRoute upstream Sample.shadowedIngress Sample.host
         Sample.external600 Sample.heap0 = Some (r, h')
       /\ r = (None, Some ErrNoValidLoadbalancerDomain).
Proof.
  assert (Hv : networkingv1alpha1.Visibility Sample.external600
               <> IngressVisibilityClusterLocal upstream) by discriminate.
  assert (Hd : ~ disabled Sample.shadowedIngress Sample.heap0)
    by now apply heap0_not_disabled.
  split; [exact Hv|]. split; [exact Hd|].
  destruct (backend_resolution upstream Sample.shadowedIngress Sample.host
              Sample.external600 Sample.heap0 Hv Hd)
    as [(r & h' & Hmk & Hiff & _) _].
  exists r, h'. split; [exact Hmk|]. apply Hiff. now left.
Defined.





(** [route_construction] on the sample ingress: service ["kourier"] in
    namespace ["ns"]. *)
Lemma route_construction_witness :
  exists serviceName namespace,
    resolved Sample.resolvedIngress = Some (serviceName, namespace)
    /\ serviceName = "kourier"%string /\ namespace = "ns"%string
    /\ metav1.Namespace
         (routev1.Meta (Sample.route600 Sample.resolvedIngress 0))
       = namespace.
Proof.
  destruct (route_construction upstream Sample.resolvedIngress Sample.host
              Sample.external600 Sample.heap0 Sample.heap600
              (Sample.route600 Sample.resolvedIngress 0) makeRoute_resolved)
    as (s & n & Hres & _ & Hns & _).
  exists s, n. split; [exact Hres|].
  assert (Heq : Some (s, n) = Some ("kourier"%string, "ns"%string))
    by (rewrite <- Hres; reflexivity).
  injection Heq as -> ->. split; [reflexivity|]. split; [reflexivity|].
  exact Hns.
Defined.


(** [MakeRoutes_fail_fast] on an ingress without load-balancer status
    (the error, no list) and on one with it (the list, no error). *)
Lemma MakeRoutes_fail_fast_witness :
  MakeRoutes upstream Sample.unresolvedIngress Sample.heap0
  = Some ((None, Some ErrNoValidLoadbalancerDomain), Sample.heap600)
  /\ MakeRoutes upstream Sample.resolvedIngress Sample.heap0
     = Some ((Some [Sample.route600 Sample.resolvedIngress 0], None),
             Sample.heap600).
Proof.
  split.
  - destruct (MakeRoutes_fail_fast upstream Sample.unresolvedIngress
                Sample.heap0) as (Herr & _).
    apply (Herr [] Sample.external600 Sample.host [] [] Sample.heap0 None).
    + reflexivity.
    + constructor.
    + apply makeRoute_unresolved.
  - destruct (MakeRoutes_fail_fast upstream Sample.resolvedIngress
                Sample.heap0) as (_ & Hok & _).
    apply Hok.
    apply (Processed_route upstream Sample.resolvedIngress Sample.external600
             Sample.host [] Sample.heap0 _ Sample.heap600 [] Sample.heap600).
    + apply makeRoute_resolved.
    + constructor.
Defined.

(** [external_hosts_only] on a rule with an external host and a
    cluster-internal service name. *)
Lemma external_hosts_only_witness :
  In (Sample.mixed, "foo.example.com"%string)
     (calls upstream
        (networkingv1alpha1.Rules
           (networkingv1alpha1.Spec Sample.mixedIngress)))
  /\ ~ In (Sample.mixed, "foo.ns.svc.cluster.local"%string)
         (calls upstream
            (networkingv1alpha1.Rules
               (networkingv1alpha1.Spec Sample.mixedIngress))).
Proof.
  destruct (external_hosts_only upstream Sample.mixedIngress Sample.heap0)
    as (_ & Hin & _).
  split.
  - apply Hin. split; [now left|]. split; [discriminate|].
    split; [now left|]. split; [vm_compute; lia | discriminate].
  - intros Hc. apply Hin in Hc as (_ & _ & _ & _ & Hne). now apply Hne.
Defined.

(** [short_hosts_excluded] on the apex domain ["foo.com"]. *)
Lemma short_hosts_excluded_witness :
  (length (GoString.Split1 "foo.com" GoString.dot) <= 2)%nat
  /\ MakeRoutes upstream Sample.mixedIngress Sample.heap0
     = MakeRoutes upstream (withoutHost "foo.com" Sample.mixedIngress)
         Sample.heap0.
Proof.
  assert (Hshort : (length (GoString.Split1 "foo.com" GoString.dot) <= 2)%nat)
    by (vm_compute; lia).
  split; [exact Hshort|].
  apply (short_hosts_excluded upstream "foo.com" Sample.mixedIngress
           Sample.heap0 Hshort).
Defined.

(** * Further properties *)

(** ** Route names and hashes *)

Lemma append_inj_length (a1 a2 b1 b2 : string) :
  a1 +:+ b1 = a2 +:+ b2 ->
  String.length b1 = String.length b2 ->
  a1 = a2 /\ b1 = b2.
Proof.
  revert a2. induction a1 as [|c a1 IH]; intros [|c' a2] Heq Hlen.
  - now split.
  - exfalso. apply (f_equal String.length) in Heq.
    change (String.length b1
            = S (String.length (a2 +:+ b2))) in Heq.
    rewrite append_length in Heq. lia.
  - exfalso. apply (f_equal String.length) in Heq.
    change (S (String.length (a1 +:+ b1)) = String.length b2) in Heq.
    rewrite append_length in Heq. lia.
  - change (String c (a1 +:+ b1) = String c' (a2 +:+ b2)) in Heq.
    injection Heq as -> Heq. destruct (IH a2 Heq Hlen) as [-> ->].
    now split.
Qed.

Lemma digit_value (n : Z) : 0 <= n < 16 -> Hex.value (Hex.digit n) = n.
Proof.
  intros Hn. destruct n as [|p|p]; [reflexivity | | lia].
  do 4 (try destruct p as [p|p|]; try reflexivity); lia.
Qed.

Lemma nibbles (b : Z) :
  0 <= b < 256 ->
  0 <= Z.shiftr b 4 < 16 /\ 0 <= Z.land b 15 < 16
  /\ 16 * Z.shiftr b 4 + Z.land b 15 = b.
Proof.
  intros Hb. rewrite Z.shiftr_div_pow2 by lia.
  change 15 with (Z.ones 4). rewrite Z.land_ones by lia.
  change (2 ^ 4) with 16.
  pose proof (Z.div_mod b 16). pose proof (Z.mod_pos_bound b 16).
  assert (0 <= b / 16 < 16).
  { split; [apply Z.div_pos; lia | apply Z.div_lt_upper_bound; lia]. }
  lia.
Qed.

(** [%x] loses nothing: the bytes can be read back from its output. *)
Lemma decode_encode (bs : list Z) :
  Forall (fun b => 0 <= b < 256) bs -> Hex.decode (Hex.encode bs) = bs.
Proof.
  induction 1 as [|b bs Hb _ IH]; [reflexivity|].
  cbn [Hex.encode Hex.decode].
  destruct (nibbles b Hb) as (Hhi & Hlo & Hsum).
  rewrite !digit_value, IH by assumption. now rewrite Hsum.
Qed.

Lemma bytes_range (s : string) :
  Forall (fun b => 0 <= b < 256) (GoString.bytes s).
Proof.
  unfold GoString.bytes. apply Forall_map, Forall_forall. intros c _.
  pose proof (N_ascii_bounded c). cbn. lia.
Qed.

Lemma bytes_inj (s1 s2 : string) :
  GoString.bytes s1 = GoString.bytes s2 -> s1 = s2.
Proof.
  unfold GoString.bytes. revert s2.
  induction s1 as [|c s1 IH]; intros [|c' s2] Heq;
    try reflexivity; try discriminate.
  cbn [list_ascii_of_string map] in Heq. injection Heq as Hc Heq.
  apply N2Z.inj in Hc. f_equal.
  - rewrite <- (ascii_N_embedding c), <- (ascii_N_embedding c'). now rewrite Hc.
  - now apply IH.
Qed.

Lemma encode_bytes_inj (s1 s2 : string) :
  Hex.encode (GoString.bytes s1) = Hex.encode (GoString.bytes s2) -> s1 = s2.
Proof.
  intros Heq. apply bytes_inj.
  rewrite <- (decode_encode _ (bytes_range s1)),
          <- (decode_encode _ (bytes_range s2)).
  now rewrite Heq.
Qed.

Lemma all_digits_substring (s : string) (n k : nat) :
  Hex.all_digits s = true -> Hex.all_digits (String.substring n k s) = true.
Proof.
  revert n k. induction s as [|c s IH]; intros n k Hs.
  - now destruct n, k.
  - cbn [Hex.all_digits] in Hs. apply andb_true_iff in Hs as [Hc Hs].
    destruct n as [|n]; cbn [String.substring].
    + destruct k as [|k]; [reflexivity|].
      cbn [Hex.all_digits]. now rewrite Hc, IH.
    + now apply IH.
Qed.

Lemma substring_prefix (s : string) (k : nat) :
  (k <= String.length s)%nat ->
  exists rest,
    s = String.substring 0 k s +:+ rest
    /\ String.length rest = (String.length s - k)%nat.
Proof.
  revert k. induction s as [|c s IH]; intros k Hk.
  - exists ""%string. destruct k; [now split | cbn in Hk; lia].
  - destruct k as [|k].
    + exists (String c s). now split.
    + change (String.length (String c s)) with (S (String.length s)) in *.
      destruct (IH k) as (rest & Heq & Hlen); [lia|].
      exists rest. cbn [String.substring]. split; [|lia].
      change (String c s = String c (String.substring 0 k s +:+ rest)).
      now rewrite <- Heq.
Qed.

(** The [%x] rendering of a hexadecimal character is two decimal
    digits: the characters [0-9] and [a-f] have codes 0x30-0x39 and
    0x61-0x66. *)
Lemma rehexed_digit (c : ascii) :
  Hex.is_digit c = true ->
  Hex.is_decimal (Hex.digit (Z.shiftr (Z.of_N (N_of_ascii c)) 4)) = true
  /\ Hex.is_decimal (Hex.digit (Z.land (Z.of_N (N_of_ascii c)) 15)) = true.
Proof.
  destruct c as [[] [] [] [] [] [] [] []]; intros H;
    vm_compute in H; try discriminate H; split; reflexivity.
Qed.

Lemma rehexed_decimal (s : string) :
  Hex.all_digits s = true ->
  Hex.all_decimal (Hex.encode (GoString.bytes s)) = true.
Proof.
  induction s as [|c s IH]; intros Hs; [reflexivity|].
  cbn [Hex.all_digits] in Hs. apply andb_true_iff in Hs as [Hc Hs].
  change (GoString.bytes (String c s))
    with (Z.of_N (N_of_ascii c) :: GoString.bytes s).
  cbn [Hex.encode Hex.all_decimal].
  destruct (rehexed_digit c Hc) as [-> ->]. now rewrite IH.
Qed.

Lemma hashHost_digits (host : string) : Hex.all_digits (hashHost host) = true.
Proof.
  unfold hashHost, GoString.slice. apply all_digits_substring.
  apply Hex_encode_digits.
Qed.

Lemma append_cancel_l (a b c : string) : a +:+ b = a +:+ c -> b = c.
Proof.
  induction a as [|x a IH]; intros Heq; [exact Heq|].
  change (String x (a +:+ b) = String x (a +:+ c)) in Heq.
  injection Heq as Heq. now apply IH.
Qed.

(** X1. Two route names are equal exactly when the owner ids are equal
    and the hosts have the same six-character hash: the name determines
    the owner id, whatever characters it is made of, and the hash. *)
Theorem routeName_equal_iff (uid1 host1 uid2 host2 : string) :
  routeName uid1 host1 = routeName uid2 host2
  <-> uid1 = uid2 /\ hashHost host1 = hashHost host2.
Proof.
  split.
  - intros Heq.
    destruct (routeName_suffix uid1 host1) as [H1 L1].
    destruct (routeName_suffix uid2 host2) as [H2 L2].
    rewrite H1, H2 in Heq.
    assert (Hinj : Hex.encode (GoString.bytes (hashHost host1))
                   = Hex.encode (GoString.bytes (hashHost host2))
                   -> hashHost host1 = hashHost host2)
      by apply encode_bytes_inj.
    set (t1 := Hex.encode (GoString.bytes (hashHost host1))) in *.
    set (t2 := Hex.encode (GoString.bytes (hashHost host2))) in *.
    clearbody t1 t2.
    apply append_cancel_l, append_inj_length in Heq as [Huid Heq].
    + split; [exact Huid|]. now apply Hinj, (append_cancel_l "-").
    + rewrite !append_length, L1, L2. reflexivity.
  - intros [-> Hh]. unfold routeName. now rewrite Hh.
Qed.

(** X2. A route name is 19 characters longer than the owner id, whatever
    the host, and the twelve characters after ["route-<uid>-"] are all
    decimal digits. *)
Theorem routeName_shape (uid host : string) :
  String.length (routeName uid host) = (String.length uid + 19)%nat
  /\ exists t,
       routeName uid host = "route-" +:+ uid +:+ "-" +:+ t
       /\ String.length t = 12%nat
       /\ Hex.all_decimal t = true.
Proof.
  destruct (routeName_suffix uid host) as [Hname Hlen]. split.
  - rewrite Hname, !append_length, Hlen. cbn. lia.
  - eexists. split; [exact Hname|]. split; [exact Hlen|].
    apply rehexed_decimal, hashHost_digits.
Qed.

(** X3. The slice [[0:6]] of [hashHost] is always in range: the result
    is the first six characters of the 64-character hexadecimal digest
    of the host, each of them in [0-9a-f]. *)
Theorem hashHost_prefix (host : string) :
  String.length (hashHost host) = 6%nat
  /\ Hex.all_digits (hashHost host) = true
  /\ exists rest,
       Hex.encode (SHA256.Sum256 (GoString.bytes host))
       = hashHost host +:+ rest
       /\ String.length rest = 58%nat.
Proof.
  split; [apply hashHost_length|]. split; [apply hashHost_digits|].
  destruct (substring_prefix
              (Hex.encode (SHA256.Sum256 (GoString.bytes host))) 6)
    as (rest & Heq & Hlen).
  { rewrite hashHost_slice_in_range. lia. }
  exists rest. split; [exact Heq|].
  rewrite Hlen, hashHost_slice_in_range. reflexivity.
Qed.

(** ** What [makeRoute] writes *)

Section Coverage.

Import networkingv1alpha1.

Variable pkg : Imports.

Lemma onlyTimeoutWritten_refl (ci : Ingress) (h : heap) :
  onlyTimeoutWritten ci h h.
Proof. repeat split; auto. Qed.

Lemma onlyTimeoutWritten_trans (ci : Ingress) (h1 h2 h3 : heap) :
  onlyTimeoutWritten ci h1 h2 -> onlyTimeoutWritten ci h2 h3 ->
  onlyTimeoutWritten ci h1 h3.
Proof.
  intros (A1 & A2 & A3) (B1 & B2 & B3). split; [|split].
  - intros l k Hk. now rewrite B1, A1.
  - intros l Hl Hann. rewrite B2, A2; auto.
  - set_solver.
Qed.

Lemma contents_other (h : heap) (l l' : nat) (m : gmap string string) :
  l <> l' -> contents (<[l := m]> h) l' = contents h l'.
Proof. intros Hne. unfold contents. now rewrite lookup_insert_ne. Qed.

Lemma contents_fresh (h : heap) : contents h (fresh (dom h)) = ∅.
Proof.
  unfold contents.
  now rewrite (proj1 (not_elem_of_dom h (fresh (dom h))) (is_fresh (dom h))).
Qed.

(** The map [makeRoute] works on is the ingress's own or a new one,
    never another map of the heap. *)
Lemma annotationsOf_other (ci : Ingress) (h : heap) (l : nat) :
  l ∈ dom h -> GetAnnotations ci <> Some l -> fst (annotationsOf ci h) <> l.
Proof.
  intros Hl Hann. unfold annotationsOf.
  destruct (GetAnnotations ci) as [l0|]; cbn [fst].
  - congruence.
  - intros <-. now apply (is_fresh (dom h)).
Qed.

Lemma annotationsOf_frame (ci : Ingress) (h : heap) :
  onlyTimeoutWritten ci h (snd (annotationsOf ci h)).
Proof.
  unfold annotationsOf. destruct (GetAnnotations ci) as [l0|]; cbn [snd].
  { apply onlyTimeoutWritten_refl. }
  split; [|split].
  - intros l k _. destruct (decide (fresh (dom h) = l)) as [<-|Hne].
    + now rewrite contents_insert, contents_fresh.
    + now rewrite contents_other.
  - intros l Hl _. rewrite lookup_insert_ne; [reflexivity|].
    intros <-. now apply (is_fresh (dom h)).
  - rewrite dom_insert_L. set_solver.
Qed.

Lemma write_frame (ci : Ingress) (h h1 : heap) (l : nat) (v : string) :
  onlyTimeoutWritten ci h h1 ->
  (forall l', l' ∈ dom h -> GetAnnotations ci <> Some l' -> l <> l') ->
  onlyTimeoutWritten ci h
    (<[l := <[TimeoutAnnotation := v]> (contents h1 l)]> h1).
Proof.
  intros (F1 & F2 & F3) Hother. split; [|split].
  - intros l' k Hk. destruct (decide (l = l')) as [<-|Hne].
    + rewrite contents_insert, lookup_insert_ne by congruence. now apply F1.
    + rewrite contents_other by exact Hne. now apply F1.
  - intros l' Hl' Hann. rewrite lookup_insert_ne by now apply Hother.
    now apply F2.
  - rewrite dom_insert_L. set_solver.
Qed.

Lemma withTimeout_frame (ci : Ingress) (rule : IngressRule) (h : heap) :
  onlyTimeoutWritten ci h
    (withTimeout pkg rule (fst (annotationsOf ci h))
       (snd (annotationsOf ci h))).
Proof.
  pose proof (annotationsOf_frame ci h) as F. unfold withTimeout.
  destruct (HTTP rule) as [http|]; [|exact F].
  destruct (last (Paths http)) as [p|]; [|exact F].
  apply write_frame; [exact F|].
  intros l' Hl' Hann. now apply annotationsOf_other.
Qed.

Lemma makeRoute_frame (ci : Ingress) (host : string) (rule : IngressRule)
    (h h' : heap) r :
  makeRoute pkg ci host rule h = Some (r, h') -> onlyTimeoutWritten ci h h'.
Proof.
  rewrite makeRoute_eq. cbv zeta.
  pose proof (annotationsOf_frame ci h) as F1.
  pose proof (withTimeout_frame ci rule h) as F2.
  destruct (clusterLocal pkg rule); [now intros [= <- <-]|].
  destruct (contents _ _ !! DisableRouteAnnotation); [now intros [= <- <-]|].
  destruct (resolved ci) as [[s n]|];
    [destruct (String.eqb s "" || String.eqb n "")|];
    now intros [= <- <-].
Qed.

Lemma disabled_frame (ci : Ingress) (h h' : heap) :
  onlyTimeoutWritten ci h h' -> disabled ci h' <-> disabled ci h.
Proof.
  intros (F1 & _ & _). unfold disabled.
  split; intros (l & Hl & Hv); exists l; split; try exact Hl.
  - now rewrite <- F1 by discriminate.
  - now rewrite F1 by discriminate.
Qed.

Lemma Processed_frame (ci : Ingress) cs h routes h' :
  Processed pkg ci cs h routes h' -> onlyTimeoutWritten ci h h'.
Proof.
  induction 1 as [h | rule host cs h h1 routes h' Hmk _ IH
                    | rule host cs h route h1 routes h' Hmk _ IH].
  - apply onlyTimeoutWritten_refl.
  - eapply onlyTimeoutWritten_trans; [eapply makeRoute_frame, Hmk | exact IH].
  - eapply onlyTimeoutWritten_trans; [eapply makeRoute_frame, Hmk | exact IH].
Qed.

(** The only error of [makeRoute], and when it is returned. *)
Lemma makeRoute_error (ci : Ingress) (host : string) (rule : IngressRule)
    (h h' : heap) x e :
  makeRoute pkg ci host rule h = Some ((x, Some e), h') ->
  x = None /\ e = ErrNoValidLoadbalancerDomain
  /\ clusterLocal pkg rule = false /\ ~ disabled ci h /\ unresolved ci.
Proof.
  rewrite makeRoute_eq. cbv zeta. unfold unresolved.
  destruct (clusterLocal pkg rule); [discriminate|].
  destruct (contents _ _ !! DisableRouteAnnotation) eqn:Hd; [discriminate|].
  assert (~ disabled ci h) as Hnd.
  { rewrite <- disabled_lookup, Hd. now intros [? ?]. }
  destruct (resolved ci) as [[s n]|].
  - destruct (String.eqb s "") eqn:Hs; cbn [orb].
    { apply String.eqb_eq in Hs. intros [= <- <- <-]. repeat split; auto. }
    destruct (String.eqb n "") eqn:Hn; [|discriminate].
    apply String.eqb_eq in Hn. intros [= <- <- <-]. repeat split; auto.
  - intros [= <- <- <-]. repeat split; auto.
Qed.

Lemma makeRoute_when_unresolved (ci : Ingress) (host : string)
    (rule : IngressRule) (h : heap) :
  clusterLocal pkg rule = false -> ~ disabled ci h -> unresolved ci ->
  exists h',
    makeRoute pkg ci host rule h
    = Some ((None, Some ErrNoValidLoadbalancerDomain), h').
Proof.
  intros Hl Hd Hu. rewrite makeRoute_eq. cbv zeta. rewrite Hl.
  destruct (contents _ _ !! DisableRouteAnnotation) eqn:Hv.
  { exfalso. apply Hd. rewrite <- disabled_lookup, Hv. eauto. }
  unfold unresolved in Hu. destruct (resolved ci) as [[s n]|]; [|eauto].
  destruct Hu as [-> | ->]; [eauto|].
  destruct (String.eqb s ""); eauto.
Qed.

Lemma makeRoute_when_resolved (ci : Ingress) (host : string)
    (rule : IngressRule) (h : heap) (s n : string) :
  clusterLocal pkg rule = false -> ~ disabled ci h ->
  resolved ci = Some (s, n) -> s <> ""%string -> n <> ""%string ->
  makeRoute pkg ci host rule h
  = Some ((Some (routeFor pkg ci host (fst (annotationsOf ci h)) s n), None),
          withTimeout pkg rule (fst (annotationsOf ci h))
            (snd (annotationsOf ci h))).
Proof.
  intros Hl Hd Hres Hs Hn. rewrite makeRoute_eq. cbv zeta. rewrite Hl, Hres.
  destruct (contents _ _ !! DisableRouteAnnotation) eqn:Hv.
  { exfalso. apply Hd. rewrite <- disabled_lookup, Hv. eauto. }
  apply String.eqb_neq in Hs, Hn. now rewrite Hs, Hn.
Qed.

(** X4. [makeRoute] always returns, and of the heap it changes at most
    the timeout annotation: every other key of every map reads as
    before, every map other than the ingress's own is as it was, and no
    map is gone. *)
Theorem makeRoute_writes_timeout_only (ci : Ingress) (host : string)
    (rule : IngressRule) (h : heap) :
  exists r h',
    makeRoute pkg ci host rule h = Some (r, h')
    /\ (forall l k, k <> TimeoutAnnotation ->
                   contents h' l !! k = contents h l !! k)
    /\ (forall l, l ∈ dom h -> GetAnnotations ci <> Some l ->
                 h' !! l = h !! l)
    /\ dom h ⊆ dom h'.
Proof.
  destruct (makeRoute_total pkg ci host rule h) as (r & h' & Hmk).
  exists r, h'. split; [exact Hmk|]. exact (makeRoute_frame _ _ _ _ _ _ Hmk).
Qed.

(** X5. On an ingress whose annotation map is not nil, [makeRoute]
    leaves the whole heap as it is when it skips or when the rule has no
    HTTP block or an HTTP block without paths: the timeout annotation is
    written only for a path. *)
Theorem makeRoute_leaves_heap (ci : Ingress) (host : string)
    (rule : IngressRule) (h : heap) (l : nat) :
  GetAnnotations ci = Some l ->
  Visibility rule = IngressVisibilityClusterLocal pkg
  \/ disabled ci h
  \/ HTTP rule = None
  \/ (exists http, HTTP rule = Some http /\ Paths http = []) ->
  exists r, makeRoute pkg ci host rule h = Some (r, h).
Proof.
  intros Hann Hcase. rewrite makeRoute_eq. cbv zeta.
  assert (Ha : annotationsOf ci h = (l, h))
    by (unfold annotationsOf; now rewrite Hann).
  rewrite Ha. cbn [fst snd].
  destruct (clusterLocal pkg rule) eqn:Hl; [eauto|].
  destruct (contents h l !! DisableRouteAnnotation) eqn:Hv; [eauto|].
  assert (Hw : withTimeout pkg rule l h = h).
  { destruct Hcase as [Hc | [Hd | [Hn | (http & Hh & Hp)]]].
    - apply clusterLocal_spec in Hc. congruence.
    - exfalso. destruct Hd as (l' & Hl' & [v Hv']).
      rewrite Hann in Hl'. injection Hl' as <-. congruence.
    - unfold withTimeout. now rewrite Hn.
    - unfold withTimeout. now rewrite Hh, Hp. }
  rewrite Hw. destruct (resolved ci) as [[s n]|]; [|eauto].
  destruct (String.eqb s "" || String.eqb n ""); eauto.
Qed.

(** X6. A route returned by [makeRoute] takes over the annotations of
    the ingress: but for the timeout annotation, every key reads in the
    map of the route as it read in the map of the ingress before the
    call (nothing, on a nil map). *)
Theorem route_takes_over_annotations (ci : Ingress) (host : string)
    (rule : IngressRule) (h h' : heap) (route : routev1.Route)
    (e : option error) :
  makeRoute pkg ci host rule h = Some ((Some route, e), h') ->
  exists l,
    metav1.Annotations (routev1.Meta route) = Some l
    /\ forall k, k <> TimeoutAnnotation ->
         contents h' l !! k
         = match GetAnnotations ci with
           | Some l0 => contents h l0 !! k
           | None => None
           end.
Proof.
  intros Hmk. pose proof (makeRoute_frame _ _ _ _ _ _ Hmk) as (F1 & _ & _).
  apply makeRoute_route in Hmk as (_ & _ & _ & _ & s & n & _ & _ & _ & ->).
  exists (fst (annotationsOf ci h)). split; [reflexivity|].
  intros k Hk. rewrite F1 by exact Hk. unfold annotationsOf.
  destruct (GetAnnotations ci) as [l0|]; cbn [fst]; [reflexivity|].
  now rewrite contents_fresh.
Qed.

(** X13. When no endpoint is usable, [makeRoute] returns
    [ErrNoValidLoadbalancerDomain] unless it skips: this is so when the
    load-balancer status is nil or has no endpoint, and when every
    endpoint has an empty internal domain, one of two segments or
    fewer, or one whose third segment is not [svc]. *)
Theorem makeRoute_no_usable_endpoint (ci : Ingress) (host : string)
    (rule : IngressRule) (h : heap) :
  Visibility rule <> IngressVisibilityClusterLocal pkg ->
  ~ disabled ci h ->
  (forall lb, In lb (endpoints ci) ->
     DomainInternal lb = ""%string
     \/ (length (GoString.Split1 (DomainInternal lb) GoString.dot) <= 2)%nat
     \/ GoString.Split1 (DomainInternal lb) GoString.dot !! 2%nat
        <> Some "svc"%string) ->
  exists h',
    makeRoute pkg ci host rule h
    = Some ((None, Some ErrNoValidLoadbalancerDomain), h').
Proof.
  intros Hl Hd Hall. apply makeRoute_when_unresolved;
    [now apply clusterLocal_false | exact Hd |].
  unfold unresolved, resolved.
  assert (Hnone : omap backendOf (endpoints ci) = []).
  { induction (endpoints ci) as [|lb lbs IH]; [reflexivity|].
    cbn [omap list_omap].
    assert (Hlb : backendOf lb = None).
    { specialize (Hall lb (or_introl eq_refl)). unfold backendOf.
      destruct (String.eqb (DomainInternal lb) "") eqn:He; [reflexivity|].
      apply String.eqb_neq in He.
      destruct (GoString.Split1 (DomainInternal lb) GoString.dot)
        as [|p0 [|p1 [|p2 parts]]]; try reflexivity.
      destruct (String.eqb p2 "svc") eqn:Hsvc; [|reflexivity].
      apply String.eqb_eq in Hsvc. subst p2.
      destruct Hall as [? | [Hlen | Hne]];
        [contradiction | cbn in Hlen; lia | now contradiction Hne]. }
    rewrite Hlb. apply IH. intros lb' Hin. apply Hall. now right. }
  now rewrite Hnone.
Qed.

(** ** What [MakeRoutes] returns and writes *)

(** Run on pairs none of which is cluster-local, with the marker absent
    and the backend resolved, route construction returns a route for
    every pair. *)
Lemma Processed_all (ci : Ingress) (s n : string) cs :
  resolved ci = Some (s, n) -> s <> ""%string -> n <> ""%string ->
  (forall rule host, In (rule, host) cs -> clusterLocal pkg rule = false) ->
  forall h, ~ disabled ci h ->
    exists routes h',
      Processed pkg ci cs h routes h'
      /\ map (fun r => routev1.Host (routev1.Spec r)) routes = map snd cs
      /\ forall route, In route routes ->
           exists l, route
                     = routeFor pkg ci (routev1.Host (routev1.Spec route)) l s n.
Proof.
  intros Hres Hs Hn. induction cs as [|[rule host] cs IH]; intros Hloc h Hd.
  { exists [], h. split; [constructor|]. split; [reflexivity|].
    intros route []. }
  assert (Hl : clusterLocal pkg rule = false) by (apply (Hloc rule host); now left).
  pose proof (makeRoute_when_resolved ci host rule h s n Hl Hd Hres Hs Hn)
    as Hmk.
  pose proof (makeRoute_frame _ _ _ _ _ _ Hmk) as F.
  destruct (IH (fun r x Hin => Hloc r x (or_intror Hin)) _
              (fun Hd' => Hd (proj1 (disabled_frame _ _ _ F) Hd')))
    as (routes & h' & Hp & Hhosts & Hshape).
  eexists (_ :: routes), h'. split; [eapply Processed_route; eauto|].
  split; [cbn [map]; now rewrite Hhosts|].
  intros route [<- | Hin]; [eexists; reflexivity | now apply Hshape].
Qed.

Lemma calls_not_local (rules : list IngressRule) rule host :
  In (rule, host) (calls pkg rules) -> clusterLocal pkg rule = false.
Proof. intros Hin. now apply in_calls in Hin. Qed.

(** X7. [MakeRoutes] always returns: it never indexes out of range and
    never writes to a nil map. What it returns is either the error
    [ErrNoValidLoadbalancerDomain] with a nil list, or a list, possibly
    empty but not nil, with a nil error. *)
Theorem MakeRoutes_returns (ci : Ingress) (h : heap) :
  exists r h',
    MakeRoutes pkg ci h = Some (r, h')
    /\ (r = (None, Some ErrNoValidLoadbalancerDomain)
        \/ exists routes, r = (Some routes, None)).
Proof.
  rewrite MakeRoutes_build.
  destruct (build_cases pkg ci (calls pkg (Rules (Spec ci))) h)
    as [(routes & h' & Hp)
       | (pre & rule & host & post & routes & h1 & x & e & h2 & -> & Hp & He)].
  - rewrite (build_processed _ _ _ _ _ _ Hp). eauto 6.
  - rewrite (build_error _ _ _ _ _ _ Hp _ _ _ _ _ _ _ He).
    apply makeRoute_error in He as (_ & -> & _). eauto 6.
Qed.

(** X8. Of the heap, [MakeRoutes] changes at most timeout annotations:
    every other key of every map reads as before, every map other than
    the ingress's own is as it was, and no map is gone. *)
Theorem MakeRoutes_writes_timeout_only (ci : Ingress) (h : heap) :
  exists r h',
    MakeRoutes pkg ci h = Some (r, h')
    /\ (forall l k, k <> TimeoutAnnotation ->
                   contents h' l !! k = contents h l !! k)
    /\ (forall l, l ∈ dom h -> GetAnnotations ci <> Some l ->
                 h' !! l = h !! l)
    /\ dom h ⊆ dom h'.
Proof.
  rewrite MakeRoutes_build.
  destruct (build_cases pkg ci (calls pkg (Rules (Spec ci))) h)
    as [(routes & h' & Hp)
       | (pre & rule & host & post & routes & h1 & x & e & h2 & -> & Hp & He)].
  - rewrite (build_processed _ _ _ _ _ _ Hp). eexists _, _.
    split; [reflexivity|]. exact (Processed_frame _ _ _ _ _ Hp).
  - rewrite (build_error _ _ _ _ _ _ Hp _ _ _ _ _ _ _ He). eexists _, _.
    split; [reflexivity|].
    exact (onlyTimeoutWritten_trans _ _ _ _ (Processed_frame _ _ _ _ _ Hp)
             (makeRoute_frame _ _ _ _ _ _ He)).
Qed.

(** X9. With the disable marker absent and the backend resolved,
    [MakeRoutes] returns no error and exactly one route for every
    occurrence of an external host in a rule that is not cluster-local,
    in rule and host order (a host listed twice gets two routes); each
    is named by [routeName] from the owner id and its host and targets
    the resolved service and namespace. *)
Theorem MakeRoutes_one_route_per_external_host (ci : Ingress) (h : heap)
    (s n : string) :
  ~ disabled ci h ->
  resolved ci = Some (s, n) -> s <> ""%string -> n <> ""%string ->
  exists routes h',
    MakeRoutes pkg ci h = Some ((Some routes, None), h')
    /\ map (fun r => routev1.Host (routev1.Spec r)) routes
       = map snd (calls pkg (Rules (Spec ci)))
    /\ forall route, In route routes ->
         metav1.Name (routev1.Meta route)
         = routeName (GetUID ci) (routev1.Host (routev1.Spec route))
         /\ routev1.Name (routev1.To (routev1.Spec route)) = s
         /\ metav1.Namespace (routev1.Meta route) = n.
Proof.
  intros Hd Hres Hs Hn.
  destruct (Processed_all ci s n (calls pkg (Rules (Spec ci))) Hres Hs Hn
              (calls_not_local _) h Hd)
    as (routes & h' & Hp & Hhosts & Hshape).
  exists routes, h'. split.
  - rewrite MakeRoutes_build. apply (build_processed _ _ _ _ _ _ Hp []).
  - split; [exact Hhosts|]. intros route Hin.
    destruct (Hshape route Hin) as (l & Heq). rewrite Heq. now cbn.
Qed.

(** X10. [MakeRoutes] returns an error exactly when route construction
    is invoked at all (some rule that is not cluster-local has an
    external host), the disable marker is absent and backend resolution
    leaves the service name or the namespace empty. *)
Theorem MakeRoutes_error_iff (ci : Ingress) (h : heap) :
  (exists x e h', MakeRoutes pkg ci h = Some ((x, Some e), h'))
  <-> calls pkg (Rules (Spec ci)) <> []
      /\ ~ disabled ci h
      /\ match last (omap backendOf (endpoints ci)) with
         | Some (s, n) => s = ""%string \/ n = ""%string
         | None => True
         end.
Proof.
  fold (resolved ci). fold (unresolved ci). rewrite MakeRoutes_build. split.
  - intros (x & e & h' & Hb).
    destruct (build_cases pkg ci (calls pkg (Rules (Spec ci))) h)
      as [(routes & h1 & Hp)
         | (pre & rule & host & post & routes & h1 & y & e' & h2
            & Hcalls & Hp & He)].
    { rewrite (build_processed _ _ _ _ _ _ Hp) in Hb. discriminate. }
    split; [rewrite Hcalls; now destruct pre|].
    apply makeRoute_error in He as (_ & _ & _ & Hnd & Hu).
    split; [|exact Hu].
    intros Hd. apply Hnd.
    now apply (disabled_frame _ _ _ (Processed_frame _ _ _ _ _ Hp)).
  - intros (Hcalls & Hd & Hu).
    destruct (calls pkg (Rules (Spec ci))) as [|[rule host] cs] eqn:Hc;
      [contradiction|].
    assert (Hl : clusterLocal pkg rule = false).
    { apply (calls_not_local (Rules (Spec ci)) rule host).
      rewrite Hc. now left. }
    destruct (makeRoute_when_unresolved ci host rule h Hl Hd Hu) as (h' & He).
    exists None, ErrNoValidLoadbalancerDomain, h'.
    apply (build_error pkg ci [] h [] h (Processed_nil pkg ci h)
             rule host cs [] None _ _ He).
Qed.

(** X11. On an ingress whose annotation map is not nil, every route
    [MakeRoutes] returns refers to that one map, the ingress's own: the
    routes do not have annotations of their own, and what is written
    for a later host shows in the routes of the earlier ones. *)
Theorem MakeRoutes_routes_share_ingress_map (ci : Ingress) (h h' : heap)
    (l : nat) (routes : list routev1.Route) (e : option error) :
  GetAnnotations ci = Some l ->
  MakeRoutes pkg ci h = Some ((Some routes, e), h') ->
  forall route, In route routes ->
    metav1.Annotations (routev1.Meta route) = Some l.
Proof.
  intros Hann Hmk route Hin. rewrite MakeRoutes_build in Hmk.
  destruct (build_cases pkg ci (calls pkg (Rules (Spec ci))) h)
    as [(rs & h1 & Hp)
       | (pre & rule & host & post & rs & h1 & x & e' & h2 & Hc & Hp & He)].
  2:{ rewrite Hc, (build_error _ _ _ _ _ _ Hp _ _ _ _ _ _ _ He) in Hmk.
      discriminate. }
  rewrite (build_processed _ _ _ _ _ _ Hp) in Hmk.
  injection Hmk as <- <- <-.
  destruct (Processed_route_origin _ _ _ _ _ _ Hp route Hin)
    as (rule & host & h2 & h3 & _ & Hm).
  apply makeRoute_route in Hm as (_ & _ & _ & _ & s & n & _ & _ & _ & ->).
  cbn. unfold annotationsOf. now rewrite Hann.
Qed.

Lemma withTimeout_dom (rule : IngressRule) (l : nat) (h : heap) :
  dom h ⊆ dom (withTimeout pkg rule l h).
Proof.
  unfold withTimeout. destruct (HTTP rule) as [http|]; [|reflexivity].
  destruct (last (Paths http)); [|reflexivity].
  rewrite dom_insert_L. set_solver.
Qed.

Lemma Processed_new_maps (ci : Ingress) cs h routes h' :
  GetAnnotations ci = None ->
  Processed pkg ci cs h routes h' ->
  length (annotationMaps routes) = length routes
  /\ NoDup (annotationMaps routes)
  /\ forall l, In l (annotationMaps routes) -> l ∉ dom h.
Proof.
  intros Hnil.
  induction 1 as [h | rule host cs h h1 routes h' Hmk _ IH
                    | rule host cs h route h1 routes h' Hmk _ IH].
  - split; [reflexivity|]. split; [constructor | intros l []].
  - destruct IH as (Hlen & Hnd & Hnew). split; [exact Hlen|].
    split; [exact Hnd|]. intros l Hin Hl. apply (Hnew l Hin).
    pose proof (makeRoute_frame _ _ _ _ _ _ Hmk) as (_ & _ & Hdom).
    set_solver.
  - destruct IH as (Hlen & Hnd & Hnew).
    pose proof (makeRoute_frame _ _ _ _ _ _ Hmk) as (_ & _ & Hdom).
    apply makeRoute_route in Hmk as (_ & _ & _ & Hh1 & s & n & _ & _ & _ & ->).
    assert (Ha : annotationsOf ci h
                 = (fresh (dom h), <[fresh (dom h) := ∅]> h))
      by (unfold annotationsOf; now rewrite Hnil).
    rewrite Ha in Hh1 |- *. cbn [fst snd] in Hh1 |- *.
    assert (Hin1 : fresh (dom h) ∈ dom h1).
    { rewrite Hh1. apply withTimeout_dom. rewrite dom_insert_L. set_solver. }
    change (annotationMaps (routeFor pkg ci host (fresh (dom h)) s n :: routes))
      with (fresh (dom h) :: annotationMaps routes).
    split; [cbn [length]; now rewrite Hlen|]. split.
    + constructor; [|exact Hnd]. intros Hin. apply list_elem_of_In in Hin.
      now apply (Hnew _ Hin).
    + intros l [<- | Hin]; [apply is_fresh|].
      intros Hl. apply (Hnew l Hin). set_solver.
Qed.

(** X12. On an ingress whose annotation map is nil, every route
    [MakeRoutes] returns has an annotation map of its own: the maps of
    the routes are new (none is a map of the heap before the call) and
    pairwise distinct. *)
Theorem MakeRoutes_routes_get_new_maps (ci : Ingress) (h h' : heap)
    (routes : list routev1.Route) (e : option error) :
  GetAnnotations ci = None ->
  MakeRoutes pkg ci h = Some ((Some routes, e), h') ->
  length (annotationMaps routes) = length routes
  /\ NoDup (annotationMaps routes)
  /\ forall l, In l (annotationMaps routes) -> l ∉ dom h.
Proof.
  intros Hnil Hmk. rewrite MakeRoutes_build in Hmk.
  destruct (build_cases pkg ci (calls pkg (Rules (Spec ci))) h)
    as [(rs & h1 & Hp)
       | (pre & rule & host & post & rs & h1 & x & e' & h2 & Hc & Hp & He)].
  2:{ rewrite Hc, (build_error _ _ _ _ _ _ Hp _ _ _ _ _ _ _ He) in Hmk.
      discriminate. }
  rewrite (build_processed _ _ _ _ _ _ Hp) in Hmk.
  injection Hmk as <- <- <-.
  exact (Processed_new_maps _ _ _ _ _ Hnil Hp).
Qed.

(** X14. When there is nothing to route (no rule, or every host is in a
    cluster-local rule, has two segments or fewer, or has [svc] as its
    third segment), [MakeRoutes] returns the empty, non-nil list with a
    nil error and leaves the heap as it is, whatever the load-balancer
    status. *)
Theorem MakeRoutes_nothing_to_route (ci : Ingress) (h : heap) :
  (forall rule host,
      In rule (Rules (Spec ci)) -> In host (Hosts rule) ->
      Visibility rule = IngressVisibilityClusterLocal pkg
      \/ (length (GoString.Split1 host GoString.dot) <= 2)%nat
      \/ GoString.Split1 host GoString.dot !! 2%nat = Some "svc"%string) ->
  MakeRoutes pkg ci h = Some ((Some [], None), h).
Proof.
  intros Hall. rewrite MakeRoutes_build.
  assert (Hcalls : calls pkg (Rules (Spec ci)) = []).
  { destruct (calls pkg (Rules (Spec ci))) as [|[rule host] cs] eqn:Hc;
      [reflexivity|]. exfalso.
    assert (Hin : In (rule, host) (calls pkg (Rules (Spec ci))))
      by (rewrite Hc; now left).
    apply in_calls in Hin as (Hr & Hl & Hh & Hext).
    apply clusterLocal_false in Hl. apply externalHost_spec in Hext as [Hlen Hne].
    destruct (Hall rule host Hr Hh) as [? | [? | ?]];
      [contradiction | lia | contradiction]. }
  now rewrite Hcalls.
Qed.

End Coverage.

(** ** The further properties on sample objects *)

Lemma MakeRoutes_resolved :
  MakeRoutes upstream Sample.resolvedIngress Sample.heap0
  = Some ((Some [Sample.route600 Sample.resolvedIngress 0], None),
          Sample.heap600).
Proof.
  rewrite MakeRoutes_build.
  change (calls upstream
            (networkingv1alpha1.Rules
               (networkingv1alpha1.Spec Sample.resolvedIngress)))
    with [(Sample.external600, Sample.host)].
  cbn [build]. unfold bind. now rewrite makeRoute_resolved.
Qed.

(** [makeRoute_leaves_heap] on a cluster-local rule. *)
Lemma makeRoute_leaves_heap_witness :
  networkingv1alpha1.GetAnnotations Sample.localIngress = Some 0%nat
  /\ exists r,
       makeRoute upstream Sample.localIngress Sample.host
         Sample.clusterLocalRule Sample.heap0 = Some (r, Sample.heap0).
Proof.
  split; [reflexivity|].
  apply (makeRoute_leaves_heap upstream Sample.localIngress Sample.host
           Sample.clusterLocalRule Sample.heap0 0 eq_refl).
  left. reflexivity.
Defined.

(** [route_takes_over_annotations] on the sample ingress: the route
    reads the annotation ["owner"] of the ingress. *)
Lemma route_takes_over_annotations_witness :
  exists l,
    metav1.Annotations
      (routev1.Meta (Sample.route600 Sample.resolvedIngress 0)) = Some l
    /\ contents Sample.heap600 l !! "owner" = contents Sample.heap0 0 !! "owner".
Proof.
  destruct (route_takes_over_annotations upstream Sample.resolvedIngress
              Sample.host Sample.external600 Sample.heap0 Sample.heap600
              (Sample.route600 Sample.resolvedIngress 0) None
              makeRoute_resolved) as (l & Hl & Hk).
  exists l. split; [exact Hl|]. apply Hk. discriminate.
Defined.

(** [MakeRoutes_one_route_per_external_host] on the sample ingress. *)
Lemma MakeRoutes_one_route_per_external_host_witness :
  ~ disabled Sample.resolvedIngress Sample.heap0
  /\ resolved Sample.resolvedIngress = Some ("kourier"%string, "ns"%string)
  /\ exists routes h',
       MakeRoutes upstream Sample.resolvedIngress Sample.heap0
       = Some ((Some routes, None), h')
       /\ map (fun r => routev1.Host (routev1.Spec r)) routes
          = ["foo.example.com"%string].
Proof.
  assert (Hd : ~ disabled Sample.resolvedIngress Sample.heap0)
    by now apply heap0_not_disabled.
  split; [exact Hd|]. split; [reflexivity|].
  destruct (MakeRoutes_one_route_per_external_host upstream
              Sample.resolvedIngress Sample.heap0 "kourier" "ns" Hd eq_refl)
    as (routes & h' & Hmk & Hhosts & _); [discriminate | discriminate |].
  exists routes, h'. split; [exact Hmk | exact Hhosts].
Defined.

(** [MakeRoutes_routes_share_ingress_map] on the sample ingress. *)
Lemma MakeRoutes_routes_share_ingress_map_witness :
  networkingv1alpha1.GetAnnotations Sample.resolvedIngress = Some 0%nat
  /\ forall route,
       In route [Sample.route600 Sample.resolvedIngress 0] ->
       metav1.Annotations (routev1.Meta route) = Some 0%nat.
Proof.
  split; [reflexivity|].
  exact (MakeRoutes_routes_share_ingress_map upstream Sample.resolvedIngress
           Sample.heap0 Sample.heap600 0
           [Sample.route600 Sample.resolvedIngress 0] None eq_refl
           MakeRoutes_resolved).
Defined.

(** [MakeRoutes_routes_get_new_maps] on the ingress whose annotation map
    is nil. *)
Lemma MakeRoutes_routes_get_new_maps_witness :
  networkingv1alpha1.GetAnnotations Sample.nilIngress = None
  /\ exists routes h',
       MakeRoutes upstream Sample.nilIngress Sample.heap0
       = Some ((Some routes, None), h')
       /\ length (annotationMaps routes) = length routes
       /\ NoDup (annotationMaps routes)
       /\ forall l, In l (annotationMaps routes) -> l ∉ dom Sample.heap0.
Proof.
  split; [reflexivity|].
  assert (Hd : ~ disabled Sample.nilIngress Sample.heap0).
  { intros (l & Hl & _). discriminate Hl. }
  destruct (Processed_all upstream Sample.nilIngress "kourier" "ns"
              (calls upstream
                 (networkingv1alpha1.Rules
                    (networkingv1alpha1.Spec Sample.nilIngress)))
              eq_refl ltac:(discriminate) ltac:(discriminate)
              (calls_not_local upstream _) Sample.heap0 Hd)
    as (routes & h' & Hp & _).
  assert (Hmk : MakeRoutes upstream Sample.nilIngress Sample.heap0
                = Some ((Some routes, None), h')).
  { rewrite MakeRoutes_build.
    apply (build_processed _ _ _ _ _ _ Hp []). }
  exists routes, h'. split; [exact Hmk|].
  exact (MakeRoutes_routes_get_new_maps upstream Sample.nilIngress
           Sample.heap0 h' routes None eq_refl Hmk).
Defined.

(** [makeRoute_no_usable_endpoint] on the ingress with three unusable
    endpoints. *)
Lemma makeRoute_no_usable_endpoint_witness :
  networkingv1alpha1.Visibility Sample.external600
    <> IngressVisibilityClusterLocal upstream
  /\ ~ disabled Sample.unusableIngress Sample.heap0
  /\ exists h',
       makeRoute upstream Sample.unusableIngress Sample.host
         Sample.external600 Sample.heap0
       = Some ((None, Some ErrNoValidLoadbalancerDomain), h').
Proof.
  assert (Hv : networkingv1alpha1.Visibility Sample.external600
               <> IngressVisibilityClusterLocal upstream) by discriminate.
  assert (Hd : ~ disabled Sample.unusableIngress Sample.heap0)
    by now apply heap0_not_disabled.
  split; [exact Hv|]. split; [exact Hd|].
  apply (makeRoute_no_usable_endpoint upstream Sample.unusableIngress
           Sample.host Sample.external600 Sample.heap0 Hv Hd).
  intros lb [<- | [<- | [<- | []]]].
  - right. left. vm_compute. lia.
  - left. reflexivity.
  - right. right. discriminate.
Defined.

(** [MakeRoutes_nothing_to_route] on the ingress with a cluster-internal
    service name, an apex domain and a cluster-local rule. *)
Lemma MakeRoutes_nothing_to_route_witness :
  MakeRoutes upstream Sample.internalIngress Sample.heap0
  = Some ((Some [], None), Sample.heap0).
Proof.
  apply (MakeRoutes_nothing_to_route upstream Sample.internalIngress
           Sample.heap0).
  intros rule host [<- | [<- | []]].
  - intros [<- | [<- | []]].
    + right. right. reflexivity.
    + right. left. vm_compute. lia.
  - intros _. left. reflexivity.
Defined.
